(** * Lead management front end: the Leads page, the Replies inbox and the API client

    A shallow embedding of the JavaScript sources of the front end:

    - the API client, imported by the pages as ['../api']
      ([createLead] ... [sendDraftReply]): module [Api];
    - the Leads page, component [Leads] (the filter and sort that compute
      [filteredLeads]): module [Leads];
    - the Replies inbox, component [RepliesInbox] ([loadReplies] and the
      handlers [handleGenerateNextAction], [handleGenerateDraft],
      [handleFileSelect], [handleRemoveAttachment], [handleSendDraft]):
      module [RepliesInbox];

    together with a model of the REST back end these pages talk to (module
    [Backend]). The back end is not among the sources; its model is written
    from the specification, and every definition of it says so.

    The definitions come first; the properties follow in the modules
    [LeadsSpec], [ApiSpec], [RepliesInboxSpec] and [WorkflowSpec]. *)

From Stdlib Require Import ZArith Sorting.Sorted Sorting.Permutation.
From stdpp Require Import base tactics option list gmap strings pretty.

Local Open Scope string_scope.
Local Open Scope Z_scope.

(** * The fragment of JavaScript the pages rely on *)
Module Js.

(** The properties every object literal inherits from [Object.prototype].
    A read [obj[k]] of a key that is not an own property of [obj] finds
    these through the prototype chain. *)
Definition object_prototype_keys : list string :=
  [ "constructor"; "toString"; "toLocaleString"; "valueOf";
    "hasOwnProperty"; "isPrototypeOf"; "propertyIsEnumerable";
    "__proto__"; "__defineGetter__"; "__defineSetter__";
    "__lookupGetter__"; "__lookupSetter__" ].

(** The own property [key] of an object given by its properties, each key
    once. *)
Fixpoint own_property {V} (key : string) (fields : list (string * V)) : option V :=
  match fields with
  | [] => None
  | (k, v) :: fields' => if decide (k = key) then Some v else own_property key fields'
  end.

(** A JavaScript number as the comparator produces it: an integer or NaN. *)
Inductive number :=
| Int (z : Z)
| NaN.

(** [Array.prototype.sort] calls the comparator through SortCompare, which
    reads a NaN result as [+0]. *)
Definition SortCompare {A} (comparefn : A → A → number) (x y : A) : Z :=
  match comparefn x y with
  | Int v => v
  | NaN => 0
  end.

(** [Array.prototype.sort] is a stable sort (ECMAScript 2019): with a
    consistent comparator its result is the one sorted arrangement that keeps
    the elements the comparator finds equal in their original order. The
    insertion sort below computes it: an element is moved behind exactly those
    elements that the comparator puts strictly before it. (With a comparator
    that is not consistent the standard leaves the order to the engine.) *)
Fixpoint insert {A} (comparefn : A → A → number) (x : A) (l : list A) : list A :=
  match l with
  | [] => [x]
  | y :: l' =>
      if 0 <? SortCompare comparefn x y
      then y :: insert comparefn x l'
      else x :: l
  end.

Fixpoint sort {A} (comparefn : A → A → number) (l : list A) : list A :=
  match l with
  | [] => []
  | x :: l' => insert comparefn x (sort comparefn l')
  end.

(** ** Exceptions and asynchronous functions *)

Inductive exn :=
| Error (message : string)        (* [new Error(message)] *)
| TypeError (message : string)    (* raised by the engine *)
| SyntaxError (message : string)  (* raised by [JSON.parse] *).

Definition message (e : exn) : string :=
  match e with
  | Error m | TypeError m | SyntaxError m => m
  end.

(** How a call ends: with a value, or with a thrown exception (for an [async]
    function, a fulfilled or a rejected promise). *)
Inductive outcome (A : Type) :=
| Returned (a : A)
| Thrown (e : exn).
Global Arguments Returned {A} a.
Global Arguments Thrown {A} e.

(** An [async] function run to completion over a world [W]; an exception
    keeps the effects made before it was thrown. *)
Definition M (W A : Type) : Type := W → outcome A * W.

Definition ret {W A} (a : A) : M W A := λ w, (Returned a, w).

Definition throw {W A} (e : exn) : M W A := λ w, (Thrown e, w).

Definition bind {W A B} (m : M W A) (k : A → M W B) : M W B :=
  λ w, match m w with
       | (Returned a, w') => k a w'
       | (Thrown e, w') => (Thrown e, w')
       end.

Global Instance M_ret {W} : MRet (M W) := λ A, ret.
Global Instance M_bind {W} : MBind (M W) := λ A B k m, bind m k.

(** [try { body } catch (error) { handler }] *)
Definition try_catch {W A} (body : M W A) (handler : exn → M W A) : M W A :=
  λ w, match body w with
       | (Returned a, w') => (Returned a, w')
       | (Thrown e, w') => handler e w'
       end.

(** [try { body } finally { cleanup }] *)
Definition finally {W A} (body : M W A) (cleanup : M W unit) : M W A :=
  λ w, let '(r, w') := body w in
       match cleanup w' with
       | (Returned _, w'') => (r, w'')
       | (Thrown e, w'') => (Thrown e, w'')
       end.

(** A state update. *)
Definition modify {W} (f : W → W) : M W unit := λ w, (Returned (), f w).

Definition get {W} : M W W := λ w, (Returned w, w).

(** [s || d] on a string: the empty string is falsy. *)
Definition str_or (s d : string) : string :=
  if decide (s = "") then d else s.

End Js.


(** * Records of the REST interface

    Identifiers are database keys (UUIDs); they are modelled as integers. *)

Module Lead.
(** A lead as [GET /leads] returns it. [None] stands for a field that is
    [null] or missing in the JSON. *)
Record t := Make {
  id : Z;
  name : string;
  email : string;
  company : option string;
  status : string;
  lead_score : option Z;
  lead_priority : option string;
  last_reply_intent : option string;
  last_replied_at : option Z;
}.
End Lead.

(** * Leads page: filter and display order *)
Module Leads.
Import Lead.

(** What a read of the object literal
    [{ HIGH: 4, MEDIUM: 3, LOW: 2, IGNORE: 1 }] yields. *)
Inductive rank_value :=
| RNum (z : Z)                (* a number *)
| RInherited (key : string)   (* a member of Object.prototype *).

(** The rank table of the comparator:
    [const priorityRank = { HIGH: 4, MEDIUM: 3, LOW: 2, IGNORE: 1 }]. *)
Definition priorityRank : list (string * Z) :=
  [ ("HIGH", 4); ("MEDIUM", 3); ("LOW", 2); ("IGNORE", 1) ].

(** [priorityRank[p] || 0]: the read looks at the own properties first and
    then along the prototype chain; [undefined] is falsy and becomes 0, while
    the numbers of the table and the members of [Object.prototype] are truthy.
    A [null] or missing priority is read under the key "null" or "undefined",
    which no object on the chain has. *)
Definition rank (p : option string) : rank_value :=
  match p with
  | None => RNum 0
  | Some k =>
      match Js.own_property k priorityRank with
      | Some n => RNum n
      | None =>
          if decide (k ∈ Js.object_prototype_keys) then RInherited k else RNum 0
      end
  end.

(** [lead.lead_score || 0] *)
Definition score (l : Lead.t) : Z := default 0 (lead_score l).

(** [aPriority !== bPriority]: strict inequality of numbers, or identity of
    objects (distinct inherited members are distinct objects). *)
Definition strict_neq (a b : rank_value) : bool :=
  match a, b with
  | RNum x, RNum y => negb (x =? y)
  | RInherited j, RInherited k => negb (bool_decide (j = k))
  | _, _ => true
  end.

(** [bPriority - aPriority]: an object operand converts to NaN. *)
Definition minus (b a : rank_value) : Js.number :=
  match b, a with
  | RNum y, RNum x => Js.Int (y - x)
  | _, _ => Js.NaN
  end.

(** The comparator passed to [.sort]. *)
Definition compare_leads (a b : Lead.t) : Js.number :=
  let aPriority := rank (lead_priority a) in
  let bPriority := rank (lead_priority b) in
  if strict_neq aPriority bPriority
  then minus bPriority aPriority
  else Js.Int (score b - score a).

(** The predicate passed to [.filter]. *)
Definition passes_filters (priorityFilter intentFilter : string) (l : Lead.t) : bool :=
  if bool_decide (priorityFilter ≠ "ALL")
     && bool_decide (lead_priority l ≠ Some priorityFilter) then false
  else if bool_decide (intentFilter ≠ "ALL")
     && bool_decide (last_reply_intent l ≠ Some intentFilter) then false
  else true.

Definition filteredLeads (priorityFilter intentFilter : string)
    (leads : list Lead.t) : list Lead.t :=
  Js.sort compare_leads (List.filter (passes_filters priorityFilter intentFilter) leads).

(** ** Vocabulary of the display-order statements *)

(** The order HIGH > MEDIUM > LOW > IGNORE on priority labels. *)
Inductive outranks : option string → option string → Prop :=
| high_medium : outranks (Some "HIGH") (Some "MEDIUM")
| high_low : outranks (Some "HIGH") (Some "LOW")
| high_ignore : outranks (Some "HIGH") (Some "IGNORE")
| medium_low : outranks (Some "MEDIUM") (Some "LOW")
| medium_ignore : outranks (Some "MEDIUM") (Some "IGNORE")
| low_ignore : outranks (Some "LOW") (Some "IGNORE").

(** A priority whose rank is a number: anything but the name of a member of
    [Object.prototype]. The four labels of the data model and a missing
    priority are of this kind. *)
Definition plain_priority (p : option string) : Prop :=
  ∀ k, p = Some k → k ∉ Js.object_prototype_keys.

Definition plain (l : Lead.t) : Prop := plain_priority (lead_priority l).

(** The numeric rank of a plain priority. *)
Definition level (p : option string) : Z :=
  match rank p with
  | RNum z => z
  | RInherited _ => 0
  end.

(** [a] may be displayed above [b]. *)
Definition above (a b : Lead.t) : Prop :=
  level (lead_priority b) < level (lead_priority a)
  ∨ (level (lead_priority a) = level (lead_priority b) ∧ score b ≤ score a).

(** A replied lead with the given priority and score. *)
Definition sample (i : Z) (priority : string) (points : Z) : Lead.t :=
  Lead.Make i "Ada" "ada@example.com" None "REPLIED" (Some points) (Some priority)
    None None.

(** The example of the specification. *)
Definition example_leads : list Lead.t :=
  [ sample 1 "LOW" 10; sample 2 "HIGH" 90; sample 3 "MEDIUM" 50; sample 4 "HIGH" 70 ].

Definition label (l : Lead.t) : option string * Z := (lead_priority l, score l).

End Leads.

(* ================================================================== *)


Module Outbound.
(** An outbound email as [GET /emails/outbound] returns it. *)
Record t := Make {
  id : Z;
  lead_id : Z;
  subject : string;
  body : string;
  message_id : string;
  sent_at : Z;
  is_replied : bool;
  reply_score : option Z;
  intent : option string;
  confidence : option Z;
  priority : option string;
}.
End Outbound.

Module Attachment.
Record t := Make {
  file_name : string;
  storage_ref : string;
}.
End Attachment.

(** The draft lifecycle of a reply. *)
Inductive draft_lifecycle :=
| UNSTARTED
| DRAFTED
| SENT.

Global Instance draft_lifecycle_eq_dec : EqDecision draft_lifecycle.
Proof. solve_decision. Defined.

Module Reply.
(** An inbound reply as [GET /replies/inbound-replies] returns it. The
    next-action and draft fields are absent until first generated. *)
Record t := Make {
  id : Z;
  lead_id : Z;
  outbound_email_id : Z;
  body_preview : string;
  received_at : Z;
  intent : option string;
  reply_score : option Z;
  priority : option string;
  reasons : list string;
  next_action_title : option string;
  next_action_steps : option (list string);
  urgency : option string;
  followup_days : option Z;
  suggested_tone : option string;
  draft_status : draft_lifecycle;
  draft_tone : option string;
  draft_subject : option string;
  draft_body : option string;
  attachments : option (list Attachment.t);
}.
End Reply.

Module NextAction.
(** The result of [POST /replies/{id}/generate-next-action]. *)
Record t := Make {
  next_action_title : option string;
  next_action_steps : option (list string);
  urgency : option string;
  followup_days : option Z;
  suggested_tone : option string;
}.
End NextAction.

Module Draft.
(** The result of [POST /replies/{id}/generate-draft]. *)
Record t := Make {
  subject : string;
  body : string;
  cached : bool;
}.
End Draft.

Module SendData.
(** The body of [POST /replies/{id}/send-draft]. *)
Record t := Make {
  edited_subject : string;
  edited_body : string;
  attachments : option (list Attachment.t);
}.
End SendData.

(** * The API client, the module the pages import as ['../api'] *)
Module Api.
Import Js.

(** ** Parsed JSON, as far as the client inspects it *)

(** [Number.MAX_SAFE_INTEGER], 2^53 - 1. *)
Definition max_safe_integer : Z := 9007199254740991.

(** Numbers are the safe integers, those that [JSON.parse] reads without
    rounding and that print as their decimal numeral; the interface carries
    no others. An object is given by its own properties; it inherits the
    others from [Object.prototype]. *)
#[warnings="-register-all"]
Inductive json :=
| JNull
| JBool (b : bool)
| JNum (z : Z) (safe : Is_true (Z.abs z <=? max_safe_integer))
| JStr (s : string)
| JArr (items : list json)
| JObj (fields : list (string * json)).

(** The text of the TypeError of a property read on [null] (V8's wording). *)
Definition null_read_message : string :=
  "Cannot read properties of null (reading 'detail')".

(** [error.detail]: [None] is [undefined]. Only a parsed object can have the
    property; neither the primitive wrappers nor arrays nor [Object.prototype]
    have a member of that name; reading it off [null] throws. *)
Definition detail (error : json) : outcome (option json) :=
  match error with
  | JNull => Thrown (TypeError null_read_message)
  | JObj fields => Returned (own_property "detail" fields)
  | _ => Returned None
  end.

(** ToBoolean *)
Definition truthy (v : json) : bool :=
  match v with
  | JNull => false
  | JBool b => b
  | JNum z _ => negb (z =? 0)
  | JStr s => negb (bool_decide (s = ""))
  | JArr _ | JObj _ => true
  end.

Fixpoint join (sep : string) (parts : list string) : string :=
  match parts with
  | [] => ""
  | [p] => p
  | p :: parts' => p +:+ sep +:+ join sep parts'
  end.

(** The elements of an array converted one after the other, up to the first
    conversion that throws. *)
Definition convert_all {A B} (convert : A → outcome B) : list A → outcome (list B) :=
  fix go (items : list A) : outcome (list B) :=
    match items with
    | [] => Returned []
    | i :: items' =>
        match convert i with
        | Thrown e => Thrown e
        | Returned p =>
            match go items' with
            | Thrown e => Thrown e
            | Returned ps => Returned (p :: ps)
            end
        end
    end.

(** The text of the TypeError of an object that has no primitive value
    (V8's wording). *)
Definition no_primitive_message : string :=
  "Cannot convert object to primitive value".

(** ToString, which [new Error(v)] applies to its argument. An object is
    converted by the [toString] it finds: the one of [Object.prototype] gives
    "[object Object]"; an own property of that name, which in parsed JSON is
    never a function, hides it, and then [valueOf] gives back the object (or
    is hidden as well) and the conversion throws. An array is converted by
    [join], which converts its elements from left to right, a [null] to the
    empty string. *)
Fixpoint to_string (v : json) : outcome string :=
  match v with
  | JNull => Returned "null"
  | JBool true => Returned "true"
  | JBool false => Returned "false"
  | JNum z _ => Returned (pretty z)
  | JStr s => Returned s
  | JArr items =>
      match convert_all (λ i, match i with JNull => Returned "" | _ => to_string i end) items
      with
      | Thrown e => Thrown e
      | Returned parts => Returned (join "," parts)
      end
  | JObj fields =>
      match own_property "toString" fields with
      | Some _ => Thrown (TypeError no_primitive_message)
      | None => Returned "[object Object]"
      end
  end.

(** [new Error(error.detail || fallback)]: the error made, unless the
    conversion of [detail] to a string throws. *)
Definition detail_or (d : option json) (fallback : string) : outcome exn :=
  match d with
  | Some v =>
      if truthy v
      then match to_string v with
           | Returned m => Returned (Error m)
           | Thrown e => Thrown e
           end
      else Returned (Error fallback)
  | None => Returned (Error fallback)
  end.

(** ** Responses *)

(** A settled [fetch]: the [ok] flag and the settled promise of
    [response.json()], which the client reads at the result type [A] of the
    endpoint when [ok] holds and as an error object otherwise. *)
Inductive response (A : Type) :=
| Ok (json : outcome A)
| NotOk (json : outcome json).
Global Arguments Ok {A} json.
Global Arguments NotOk {A} json.

Definition ok {A} (r : response A) : bool :=
  match r with
  | Ok _ => true
  | NotOk _ => false
  end.

(** The form data of the Leads page and of the Send Email page. *)
Module LeadForm.
Record t := Make { name : string; email : string; company : string }.
End LeadForm.

Module EmailForm.
Record t := Make { lead_id : Z; subject : string; body : string }.
End EmailForm.

Record sent := Sent { sent_message : string; sent_message_id : option string }.
Record synced := Synced { synced_message : option string; replies_found : Z }.
Record file := File { local_name : string; content : string }.

(** The requests of the client, indexed by the type of the result. *)
Inductive request : Type → Type :=
| POST_leads (leadData : LeadForm.t) : request Lead.t
| GET_leads : request (list Lead.t)
| POST_emails_send (emailData : EmailForm.t) : request sent
| GET_emails_outbound : request (list Outbound.t)
| POST_sync_replies : request synced
| GET_replies_inbound_replies : request (list Reply.t)
| POST_generate_next_action (replyId : Z) (force : bool) : request NextAction.t
| POST_generate_draft (replyId : Z) (tone : string) (force : bool) : request Draft.t
| POST_upload_attachment (f : file) : request Attachment.t
| POST_send_draft (replyId : Z) (data : SendData.t) : request sent.

Section Client.
(** The server behind [fetch], with its state [S]; [fetch] itself rejects when
    the network fails. *)
Context {S : Type} (fetch : ∀ A, request A → M S (response A)).

(** The body shared by the functions that report the server's [detail]:
<<
  if (!response.ok) {
    const error = await response.json();
    throw new Error(error.detail || fallback);
  }
  return response.json();
>> *)
Definition settle {A} (fallback : string) (r : response A) : M S A :=
  match r with
  | NotOk json =>
      λ s, match json with
           | Thrown e => (Thrown e, s)
           | Returned error =>
               match detail error with
               | Thrown e => (Thrown e, s)
               | Returned d =>
                   match detail_or d fallback with
                   | Returned error => (Thrown error, s)
                   | Thrown e => (Thrown e, s)
                   end
               end
           end
  | Ok json => λ s, (json, s)
  end.

(** The body of the plain getters:
<<
  if (!response.ok) { throw new Error(fixed); }
  return response.json();
>> *)
Definition settle_get {A} (fixed : string) (r : response A) : M S A :=
  match r with
  | NotOk _ => throw (Error fixed)
  | Ok json => λ s, (json, s)
  end.

Definition createLead (leadData : LeadForm.t) : M S Lead.t :=
  response ← fetch _ (POST_leads leadData);
  settle "Failed to create lead" response.

Definition getLeads : M S (list Lead.t) :=
  response ← fetch _ GET_leads;
  settle_get "Failed to fetch leads" response.

Definition sendEmail (emailData : EmailForm.t) : M S sent :=
  response ← fetch _ (POST_emails_send emailData);
  settle "Failed to send email" response.

Definition getOutboundEmails : M S (list Outbound.t) :=
  response ← fetch _ GET_emails_outbound;
  settle_get "Failed to fetch outbound emails" response.

Definition syncReplies : M S synced :=
  response ← fetch _ POST_sync_replies;
  settle "Failed to sync replies" response.

Definition getInboundReplies : M S (list Reply.t) :=
  response ← fetch _ GET_replies_inbound_replies;
  settle_get "Failed to fetch replies" response.

Definition generateNextAction (replyId : Z) (force : bool) : M S NextAction.t :=
  response ← fetch _ (POST_generate_next_action replyId force);
  settle "Failed to generate next action" response.

Definition generateDraft (replyId : Z) (tone : string) (force : bool) : M S Draft.t :=
  response ← fetch _ (POST_generate_draft replyId tone force);
  settle "Failed to generate draft" response.

Definition uploadAttachment (f : file) : M S Attachment.t :=
  response ← fetch _ (POST_upload_attachment f);
  settle "Failed to upload file" response.

Definition sendDraftReply (replyId : Z) (data : SendData.t) : M S sent :=
  response ← fetch _ (POST_send_draft replyId data);
  settle "Failed to send draft" response.

End Client.

(** The functions that change the server, with the fallback message of each. *)
Inductive mutating : Type → Type :=
| CreateLead (leadData : LeadForm.t) : mutating Lead.t
| SendEmail (emailData : EmailForm.t) : mutating sent
| SyncReplies : mutating synced
| GenerateNextAction (replyId : Z) (force : bool) : mutating NextAction.t
| GenerateDraft (replyId : Z) (tone : string) (force : bool) : mutating Draft.t
| UploadAttachment (f : file) : mutating Attachment.t
| SendDraftReply (replyId : Z) (data : SendData.t) : mutating sent.

Definition run {S A} (fetch : ∀ A, request A → M S (response A))
    (c : mutating A) : M S A :=
  match c with
  | CreateLead leadData => createLead fetch leadData
  | SendEmail emailData => sendEmail fetch emailData
  | SyncReplies => syncReplies fetch
  | GenerateNextAction replyId force => generateNextAction fetch replyId force
  | GenerateDraft replyId tone force => generateDraft fetch replyId tone force
  | UploadAttachment f => uploadAttachment fetch f
  | SendDraftReply replyId data => sendDraftReply fetch replyId data
  end.

Definition request_of {A} (c : mutating A) : request A :=
  match c with
  | CreateLead leadData => POST_leads leadData
  | SendEmail emailData => POST_emails_send emailData
  | SyncReplies => POST_sync_replies
  | GenerateNextAction replyId force => POST_generate_next_action replyId force
  | GenerateDraft replyId tone force => POST_generate_draft replyId tone force
  | UploadAttachment f => POST_upload_attachment f
  | SendDraftReply replyId data => POST_send_draft replyId data
  end.

Definition fallback {A} (c : mutating A) : string :=
  match c with
  | CreateLead _ => "Failed to create lead"
  | SendEmail _ => "Failed to send email"
  | SyncReplies => "Failed to sync replies"
  | GenerateNextAction _ _ => "Failed to generate next action"
  | GenerateDraft _ _ _ => "Failed to generate draft"
  | UploadAttachment _ => "Failed to upload file"
  | SendDraftReply _ _ => "Failed to send draft"
  end.

(** The reading of the error report under which the message of the thrown
    error is the [detail] string of the body whenever the body has one. *)
Definition reports_every_detail : Prop :=
  ∀ (S A : Type) (fetch : ∀ A, request A → M S (response A))
    (c : mutating A) (s s' : S) (fields : list (string * json)) (d : string),
    fetch A (request_of c) s = (Returned (NotOk (Returned (JObj fields))), s') →
    own_property "detail" fields = Some (JStr d) →
    run fetch c s = (Thrown (Error d), s').

(** A server that answers every request with the same error body. *)
Definition failing (body : json) (A : Type) (req : request A) : M unit (response A) :=
  λ s, (Returned (NotOk (Returned body)), s).

End Api.

(** * The Replies inbox, component [RepliesInbox] *)
Module RepliesInbox.
Import Js.

(** One entry of [replyStates]. A field is [None] when the property is
    [undefined], as in an entry made by spreading an [undefined] one. *)
Record reply_state := ReplyState {
  generatingAction : option bool;
  generatingDraft : option bool;
  sending : option bool;
  selectedTone : option string;
  draftSubject : option string;
  draftBody : option string;
  attachments : option (list Attachment.t);
  uploadingFile : option bool;
}.

(** The state of the component: the [useState] cells, and whether React has
    torn the component down after an exception in a state updater. *)
Record component := Component {
  replies : list Reply.t;
  loading : bool;
  expandedReply : option Z;
  message : option (string * string);
  replyStates : gmap Z reply_state;
  crashed : option exn;
}.

(** [useState] initial values. *)
Definition initial : component :=
  Component [] true None None ∅ None.

(** ** Object spread on an entry *)

(** [{ ...prev[replyId] }]: spreading [undefined] gives the empty object. *)
Definition spread (prev : gmap Z reply_state) (replyId : Z) : reply_state :=
  default (ReplyState None None None None None None None None) (prev !! replyId).

Definition with_generatingAction (b : bool) (st : reply_state) : reply_state :=
  ReplyState (Some b) (generatingDraft st) (sending st) (selectedTone st)
    (draftSubject st) (draftBody st) (attachments st) (uploadingFile st).

Definition with_generatingDraft (b : bool) (st : reply_state) : reply_state :=
  ReplyState (generatingAction st) (Some b) (sending st) (selectedTone st)
    (draftSubject st) (draftBody st) (attachments st) (uploadingFile st).

Definition with_sending (b : bool) (st : reply_state) : reply_state :=
  ReplyState (generatingAction st) (generatingDraft st) (Some b) (selectedTone st)
    (draftSubject st) (draftBody st) (attachments st) (uploadingFile st).

Definition with_selectedTone (v : string) (st : reply_state) : reply_state :=
  ReplyState (generatingAction st) (generatingDraft st) (sending st) (Some v)
    (draftSubject st) (draftBody st) (attachments st) (uploadingFile st).

Definition with_draftSubject (v : string) (st : reply_state) : reply_state :=
  ReplyState (generatingAction st) (generatingDraft st) (sending st) (selectedTone st)
    (Some v) (draftBody st) (attachments st) (uploadingFile st).

Definition with_draftBody (v : string) (st : reply_state) : reply_state :=
  ReplyState (generatingAction st) (generatingDraft st) (sending st) (selectedTone st)
    (draftSubject st) (Some v) (attachments st) (uploadingFile st).

Definition with_attachments (v : list Attachment.t) (st : reply_state) : reply_state :=
  ReplyState (generatingAction st) (generatingDraft st) (sending st) (selectedTone st)
    (draftSubject st) (draftBody st) (Some v) (uploadingFile st).

Definition with_uploadingFile (b : bool) (st : reply_state) : reply_state :=
  ReplyState (generatingAction st) (generatingDraft st) (sending st) (selectedTone st)
    (draftSubject st) (draftBody st) (attachments st) (Some b).

(** [array.filter((_, i) => i !== index)] *)
Fixpoint filter_index {A} (index : nat) (l : list A) : list A :=
  match l with
  | [] => []
  | x :: l' =>
      match index with
      | O => l'
      | S index' => x :: filter_index index' l'
      end
  end.

(** [!s] on a field that holds a string or is [undefined]. *)
Definition falsy (s : option string) : bool :=
  match s with
  | None => true
  | Some v => bool_decide (v = "")
  end.

(** The text of the TypeError of a property read on [undefined]. *)
Definition undefined_read_message : string :=
  "Cannot read properties of undefined".

(** ** The state setters *)
Section Page.
Context {S : Type} (fetch : ∀ A, Api.request A → M S (Api.response A)).

(** The world of a handler: the component and the server. *)
Definition world : Type := component * S.

(** A call of the API client. *)
Definition api {A} (call : M S A) : M world A :=
  λ w, let '(r, s') := call w.2 in (r, (w.1, s')).

Definition set_component (f : component → component) : M world unit :=
  modify (λ w, (match crashed w.1 with
                | Some _ => w.1
                | None => f w.1
                end, w.2)).

Definition setReplies (f : list Reply.t → list Reply.t) : M world unit :=
  set_component (λ c,
    Component (f (replies c)) (loading c) (expandedReply c) (message c)
      (replyStates c) (crashed c)).

Definition setLoading (b : bool) : M world unit :=
  set_component (λ c,
    Component (replies c) b (expandedReply c) (message c) (replyStates c) (crashed c)).

Definition setExpandedReply (v : option Z) : M world unit :=
  set_component (λ c,
    Component (replies c) (loading c) v (message c) (replyStates c) (crashed c)).

Definition setMessage (v : option (string * string)) : M world unit :=
  set_component (λ c,
    Component (replies c) (loading c) (expandedReply c) v (replyStates c) (crashed c)).

(** [setReplyStates(updater)]. React runs the updater when it renders, so an
    exception in the updater is not seen by the [try] around the call: the
    update is dropped and the component is torn down. *)
Definition setReplyStates
    (updater : gmap Z reply_state → outcome (gmap Z reply_state)) : M world unit :=
  set_component (λ c,
    match updater (replyStates c) with
    | Returned states =>
        Component (replies c) (loading c) (expandedReply c) (message c) states (crashed c)
    | Thrown e =>
        Component (replies c) (loading c) (expandedReply c) (message c)
          (replyStates c) (Some e)
    end).

(** [setReplyStates((prev) => ({ ...prev, [replyId]: change({ ...prev[replyId] }) }))] *)
Definition update_entry (replyId : Z) (change : reply_state → reply_state) : M world unit :=
  setReplyStates (λ prev, Returned (<[replyId := change (spread prev replyId)]> prev)).

(** [showMessage]; the timer that clears the banner after five seconds is
    not part of the model. *)
Definition showMessage (type text : string) : M world unit :=
  setMessage (Some (type, text)).

(** ** Loading *)

(** The entry [loadReplies] builds for a reply. *)
Definition fresh_state (reply : Reply.t) : reply_state :=
  ReplyState (Some false) (Some false) (Some false)
    (Some (match Reply.draft_tone reply with
           | Some t => str_or t "FRIENDLY"
           | None => "FRIENDLY"
           end))
    (Some (default "" (Reply.draft_subject reply)))
    (Some (default "" (Reply.draft_body reply)))
    (Some (default [] (Reply.attachments reply)))
    (Some false).

(** [data.forEach((reply) => { states[reply.id] = ... })] *)
Definition fresh_states (data : list Reply.t) : gmap Z reply_state :=
  foldl (λ states reply, <[Reply.id reply := fresh_state reply]> states) ∅ data.

Definition loadReplies : M world unit :=
  finally
    (try_catch
       (data ← api (Api.getInboundReplies fetch);
        setReplies (λ _, data);;
        setReplyStates (λ _, Returned (fresh_states data)))
       (λ error, showMessage "error" (Js.message error)))
    (setLoading false).

(** ** The handlers *)

Definition apply_action (replyId : Z) (action : NextAction.t) (r : Reply.t) : Reply.t :=
  if decide (Reply.id r = replyId)
  then Reply.Make (Reply.id r) (Reply.lead_id r) (Reply.outbound_email_id r)
         (Reply.body_preview r) (Reply.received_at r) (Reply.intent r)
         (Reply.reply_score r) (Reply.priority r) (Reply.reasons r)
         (NextAction.next_action_title action) (NextAction.next_action_steps action)
         (NextAction.urgency action) (NextAction.followup_days action)
         (NextAction.suggested_tone action)
         (Reply.draft_status r) (Reply.draft_tone r) (Reply.draft_subject r)
         (Reply.draft_body r) (Reply.attachments r)
  else r.

Definition handleGenerateNextAction (replyId : Z) (force : bool) : M world unit :=
  update_entry replyId (with_generatingAction true);;
  finally
    (try_catch
       (action ← api (Api.generateNextAction fetch replyId force);
        setReplies (λ prev, apply_action replyId action <$> prev);;
        showMessage "success" "Next action generated!")
       (λ error, showMessage "error" (Js.message error)))
    (update_entry replyId (with_generatingAction false)).

(** [state?.selectedTone || 'FRIENDLY'] *)
Definition chosen_tone (state : option reply_state) : string :=
  match state ≫= selectedTone with
  | Some t => str_or t "FRIENDLY"
  | None => "FRIENDLY"
  end.

Definition handleGenerateDraft (replyId : Z) (force : bool) : M world unit :=
  w ← get;
  let state := replyStates w.1 !! replyId in
  let tone := chosen_tone state in
  update_entry replyId (with_generatingDraft true);;
  try_catch
    (draft ← api (Api.generateDraft fetch replyId tone force);
     update_entry replyId
       (λ st, with_generatingDraft false
                (with_draftBody (Draft.body draft)
                   (with_draftSubject (Draft.subject draft) st)));;
     showMessage "success"
       (if Draft.cached draft then "Draft loaded from cache" else "Draft generated!"))
    (λ error,
       showMessage "error" (Js.message error);;
       update_entry replyId (with_generatingDraft false)).

(** [for (const file of files) { uploadedFiles.push(await uploadAttachment(file)) }] *)
Fixpoint upload_all (files : list Api.file) : M world (list Attachment.t) :=
  match files with
  | [] => mret []
  | file :: files' =>
      fileData ← api (Api.uploadAttachment fetch file);
      uploadedFiles ← upload_all files';
      mret (fileData :: uploadedFiles)
  end.

Definition handleFileSelect (replyId : Z) (files : list Api.file) : M world unit :=
  update_entry replyId (with_uploadingFile true);;
  try_catch
    (uploadedFiles ← upload_all files;
     setReplyStates (λ prev,
       match prev !! replyId with
       | None => Thrown (TypeError undefined_read_message)
       | Some st =>
           Returned (<[replyId :=
             with_uploadingFile false
               (with_attachments (default [] (attachments st) ++ uploadedFiles) st)]> prev)
       end);;
     showMessage "success" (pretty (length files) +:+ " file(s) uploaded"))
    (λ error,
       showMessage "error" (Js.message error);;
       update_entry replyId (with_uploadingFile false)).

Definition handleRemoveAttachment (replyId : Z) (index : nat) : M world unit :=
  setReplyStates (λ prev,
    match prev !! replyId ≫= attachments with
    | None => Thrown (TypeError undefined_read_message)
    | Some files =>
        Returned (<[replyId := with_attachments (filter_index index files)
                                 (spread prev replyId)]> prev)
    end).

(** The body [handleSendDraft] posts for an entry. *)
Definition send_data (state : reply_state) : SendData.t :=
  SendData.Make (default "" (draftSubject state)) (default "" (draftBody state))
    (attachments state).

Definition handleSendDraft (replyId : Z) : M world unit :=
  w ← get;
  match replyStates w.1 !! replyId with
  | None => throw (TypeError undefined_read_message)
  | Some state =>
      if falsy (draftSubject state) || falsy (draftBody state)
      then showMessage "error" "Please generate a draft first"
      else
        update_entry replyId (with_sending true);;
        finally
          (try_catch
             (api (Api.sendDraftReply fetch replyId (send_data state));;
              showMessage "success" "Reply sent successfully!";;
              loadReplies)
             (λ error, showMessage "error" (Js.message error)))
          (update_entry replyId (with_sending false))
  end.

(** The [onChange] handlers of the tone selector and of the draft editor. *)
Definition changeTone (replyId : Z) (value : string) : M world unit :=
  update_entry replyId (with_selectedTone value).

Definition changeSubject (replyId : Z) (value : string) : M world unit :=
  update_entry replyId (with_draftSubject value).

Definition changeBody (replyId : Z) (value : string) : M world unit :=
  update_entry replyId (with_draftBody value).

Definition toggleExpanded (replyId : Z) : M world unit :=
  w ← get;
  setExpandedReply
    (if decide (expandedReply w.1 = Some replyId) then None else Some replyId).

(** The handlers that act on one reply. *)
Inductive action :=
| GenerateNextAction (force : bool)
| GenerateDraft (force : bool)
| FileSelect (files : list Api.file)
| RemoveAttachment (index : nat)
| SendDraft.

Definition handle (replyId : Z) (a : action) : M world unit :=
  match a with
  | GenerateNextAction force => handleGenerateNextAction replyId force
  | GenerateDraft force => handleGenerateDraft replyId force
  | FileSelect files => handleFileSelect replyId files
  | RemoveAttachment index => handleRemoveAttachment replyId index
  | SendDraft => handleSendDraft replyId
  end.

End Page.

(** ** Vocabulary of the statements about the handlers *)

(** A computation keeps a relation between the component before and after. *)
Definition keeps {S A} (R : component → component → Prop) (m : M (@world S) A) : Prop :=
  ∀ w, R w.1 (m w).2.1.

(** The entries of all replies but [replyId] are the same. *)
Definition same_elsewhere (replyId : Z) (c c' : component) : Prop :=
  ∀ other, other ≠ replyId → replyStates c' !! other = replyStates c !! other.

(** The reading under which every handler that acts on one reply leaves the
    entries of the other replies alone. *)
Definition touches_one_entry : Prop :=
  ∀ (S : Type) (fetch : ∀ A, Api.request A → M S (Api.response A))
    (replyId : Z) (a : action) (w : @world S),
    same_elsewhere replyId w.1 (handle fetch replyId a w).2.1.

(** A server that accepts every send and lists the given replies. *)
Definition canned (data : list Reply.t) (A : Type) (req : Api.request A)
    : M unit (Api.response A) :=
  match req in Api.request A return M unit (Api.response A) with
  | Api.GET_replies_inbound_replies => λ s, (Returned (Api.Ok (Returned data)), s)
  | Api.POST_send_draft _ _ => λ s, (Returned (Api.Ok (Returned (Api.Sent "Reply sent" None))), s)
  | _ => λ s, (Returned (Api.NotOk (Returned (Api.JObj [("detail", Api.JStr "Unavailable")]))), s)
  end.

(** A server that records the send requests it receives, in order, and
    accepts them; it lists no replies and rejects every other request. *)
Definition recording (A : Type) (req : Api.request A)
    : M (list (Z * SendData.t)) (Api.response A) :=
  match req in Api.request A return M (list (Z * SendData.t)) (Api.response A) with
  | Api.POST_send_draft replyId data =>
      λ log, (Returned (Api.Ok (Returned (Api.Sent "Reply sent" None))),
              (log ++ [(replyId, data)])%list)
  | Api.GET_replies_inbound_replies => λ log, (Returned (Api.Ok (Returned [])), log)
  | _ => λ log, (Returned (Api.NotOk (Returned (Api.JObj [("detail", Api.JStr "Unavailable")]))), log)
  end.

(** A reply with a stored FRIENDLY draft. *)
Definition stored (i : Z) (subject body : string) : Reply.t :=
  Reply.Make i 1 i "Sounds good" 0 None None None [] None None None None None
    DRAFTED (Some "FRIENDLY") (Some subject) (Some body) None.

(** An entry whose draft fields hold the given text. *)
Definition editing (subject body : string) : reply_state :=
  ReplyState (Some false) (Some false) (Some false) (Some "FRIENDLY")
    (Some subject) (Some body) (Some []) (Some false).

(** The page with the draft of reply 3 open in the editor. *)
Definition editor (subject body : string) : component :=
  Component [] false (Some 3) None {[ 3 := editing subject body ]} None.

(** The page with two replies, the draft of the second edited by the user. *)
Definition sample_component : component :=
  Component [stored 1 "Re: Hi" "Thanks"; stored 2 "Re: Offer" "Hello"] false None None
    (<[1 := editing "Re: Hi" "Thanks"]> (<[2 := editing "My subject" "My text"]> ∅))
    None.

End RepliesInbox.

(** * The back end behind the REST interface *)
Module Backend.
Import Js.

(** Modelled from the spec: the back end (a FastAPI service with its database,
    mailbox, AI providers and mail transport) is not among the sources. The
    operations below follow sections 3, 4 and 6 of the specification: the lead
    store (4.1), the outbound email log (4.2), reply ingestion (4.3), the
    next-action generator (4.4), the draft generator (4.5) and the send-draft
    pipeline (4.6). *)
Inductive tone :=
| FORMAL
| FRIENDLY
| SHORT.

Global Instance tone_eq_dec : EqDecision tone.
Proof. solve_decision. Defined.

Definition tone_name (t : tone) : string :=
  match t with
  | FORMAL => "FORMAL"
  | FRIENDLY => "FRIENDLY"
  | SHORT => "SHORT"
  end.

Definition parse_tone (s : string) : option tone :=
  if decide (s = "FORMAL") then Some FORMAL
  else if decide (s = "FRIENDLY") then Some FRIENDLY
  else if decide (s = "SHORT") then Some SHORT
  else None.

(** The error taxonomy of section 7. *)
Inductive error :=
| ValidationError (detail : string)
| ProviderError (detail : string)     (* GenerationError of 4.4 and 4.5 *)
| TransportError (detail : string)    (* SendError of 4.2 and 4.6 *)
| NotFoundError (detail : string)
| ConflictError (detail : string).

Definition error_detail (e : error) : string :=
  match e with
  | ValidationError d | ProviderError d | TransportError d
  | NotFoundError d | ConflictError d => d
  end.

(** A message in the external mailbox, with the threading token of its
    headers. *)
Record mail := Mail {
  uid : Z;
  in_reply_to : option string;
  text : string;
  received : Z;
}.

(** What the classifier returns for a reply. *)
Record classification := Classification {
  c_intent : string;
  c_score : Z;
  c_priority : string;
  c_reasons : list string;
}.

(** A message handed to the mail transport. *)
Record dispatch := Dispatch {
  d_thread : string;
  d_subject : string;
  d_body : string;
  d_files : list Attachment.t;
}.

(** A call to one of the AI generation capabilities. *)
Inductive provider_call :=
| SuggestCall (replyId : Z)
| DraftCall (replyId : Z) (t : tone).

(** The persisted records, the external mailbox, the sync checkpoint, and the
    logs of the calls made to the providers and of the attempts made on the
    transport (with their success). *)
Record state := State {
  leads : gmap Z Lead.t;
  outbound : gmap Z Outbound.t;
  replies : gmap Z Reply.t;
  mailbox : list mail;
  checkpoint : Z;
  next_id : Z;
  provider_log : list provider_call;
  transport_log : list (dispatch * bool);
}.


(** The external collaborators. The generation capabilities and the transport
    may answer differently from one call to the next; the number of calls made
    so far is their last argument. A generation or a classification that
    fails gives [None]; the transport tells whether it accepted the message. *)
Record collaborators := Collaborators {
  valid_email : string → bool;
  fresh_token : Z → string;
  classify : mail → Lead.t → Outbound.t → option classification;
  suggest : Reply.t → nat → option NextAction.t;
  compose : Reply.t → tone → nat → option (string * string);
  transport : dispatch → nat → bool;
  storage : Api.file → option Attachment.t;
  now : state → Z;
}.

Section Server.
Variable ext : collaborators.

Definition with_leads (v : gmap Z Lead.t) (s : state) : state :=
  State v (outbound s) (replies s) (mailbox s) (checkpoint s) (next_id s)
    (provider_log s) (transport_log s).

Definition with_outbound (v : gmap Z Outbound.t) (s : state) : state :=
  State (leads s) v (replies s) (mailbox s) (checkpoint s) (next_id s)
    (provider_log s) (transport_log s).

Definition with_replies (v : gmap Z Reply.t) (s : state) : state :=
  State (leads s) (outbound s) v (mailbox s) (checkpoint s) (next_id s)
    (provider_log s) (transport_log s).

Definition with_checkpoint (v : Z) (s : state) : state :=
  State (leads s) (outbound s) (replies s) (mailbox s) v (next_id s)
    (provider_log s) (transport_log s).

Definition with_next_id (v : Z) (s : state) : state :=
  State (leads s) (outbound s) (replies s) (mailbox s) (checkpoint s) v
    (provider_log s) (transport_log s).

Definition with_provider_log (v : list provider_call) (s : state) : state :=
  State (leads s) (outbound s) (replies s) (mailbox s) (checkpoint s) (next_id s)
    v (transport_log s).

Definition with_transport_log (v : list (dispatch * bool)) (s : state) : state :=
  State (leads s) (outbound s) (replies s) (mailbox s) (checkpoint s) (next_id s)
    (provider_log s) v.

(** The arrival of a message in the external mailbox. *)
Definition arrive (m : mail) (s : state) : state :=
  State (leads s) (outbound s) (replies s) (mailbox s ++ [m]) (checkpoint s)
    (next_id s) (provider_log s) (transport_log s).

(** ** 4.1 Lead store *)

(** Modelled from the spec: [createLead] "fails with ValidationError if
    name/email missing or email malformed; returns new Lead with status=NEW". *)
Definition createLead (form : Api.LeadForm.t) (s : state) : (error + Lead.t) * state :=
  if bool_decide (Api.LeadForm.name form = "")
     || bool_decide (Api.LeadForm.email form = "")
     || negb (valid_email ext (Api.LeadForm.email form))
  then (inl (ValidationError "Invalid lead"), s)
  else
    let company := Api.LeadForm.company form in
    let lead := Lead.Make (next_id s) (Api.LeadForm.name form) (Api.LeadForm.email form)
                  (if decide (company = "") then None else Some company)
                  "NEW" None None None None in
    (inr lead, with_next_id (next_id s + 1) (with_leads (<[next_id s := lead]> (leads s)) s)).

(** Modelled from the spec: [listLeads] "returns all leads,
    unfiltered/unsorted". *)
Definition listLeads (s : state) : list Lead.t := (map_to_list (leads s)).*2.

Definition with_status (v : string) (l : Lead.t) : Lead.t :=
  Lead.Make (Lead.id l) (Lead.name l) (Lead.email l) (Lead.company l) v
    (Lead.lead_score l) (Lead.lead_priority l) (Lead.last_reply_intent l)
    (Lead.last_replied_at l).

(** ** 4.2 Outbound email log *)

(** Modelled from the spec: [recordSend] persists the email only after the
    transport accepted it, and moves a NEW lead to EMAILED. *)
Definition recordSend (form : Api.EmailForm.t) (s : state) : (error + Api.sent) * state :=
  match leads s !! Api.EmailForm.lead_id form with
  | None => (inl (NotFoundError "Lead not found"), s)
  | Some lead =>
      let token := fresh_token ext (next_id s) in
      let d := Dispatch token (Api.EmailForm.subject form) (Api.EmailForm.body form) [] in
      let accepted := transport ext d (length (transport_log s)) in
      let s := with_transport_log (transport_log s ++ [(d, accepted)]) s in
      if accepted
      then
        let email := Outbound.Make (next_id s) (Lead.id lead) (Api.EmailForm.subject form)
                       (Api.EmailForm.body form) token (now ext s) false None None None None in
        let lead' := if decide (Lead.status lead = "NEW")
                     then with_status "EMAILED" lead else lead in
        (inr (Api.Sent "Email sent" (Some token)),
         with_next_id (next_id s + 1)
           (with_outbound (<[next_id s := email]> (outbound s))
              (with_leads (<[Lead.id lead := lead']> (leads s)) s)))
      else (inl (TransportError "Failed to send email"), s)
  end.

(** Modelled from the spec: [GET /emails/outbound] and
    [GET /replies/inbound-replies] return the stored records (6). *)
Definition listOutbound (s : state) : list Outbound.t := (map_to_list (outbound s)).*2.


Definition listReplies (s : state) : list Reply.t := (map_to_list (replies s)).*2.

(** ** 4.3 Reply ingestion *)

(** Modelled from the spec: "look up the OutboundEmail by message_id" (4.3). *)
Definition find_outbound (token : string) (s : state) : option Outbound.t :=
  List.find (λ o, bool_decide (Outbound.message_id o = token)) (listOutbound s).

(** Modelled from the spec: whether an InboundReply "already exists for that
    OutboundEmail" (4.3). *)
Definition has_reply (emailId : Z) (s : state) : bool :=
  existsb (λ r, Reply.outbound_email_id r =? emailId) (listReplies s).

Definition mark_replied (c : option classification) (o : Outbound.t) : Outbound.t :=
  Outbound.Make (Outbound.id o) (Outbound.lead_id o) (Outbound.subject o)
    (Outbound.body o) (Outbound.message_id o) (Outbound.sent_at o) true
    (c_score <$> c) (c_intent <$> c) (Outbound.confidence o) (c_priority <$> c).

Definition lead_replied (c : option classification) (at_time : Z) (l : Lead.t) : Lead.t :=
  Lead.Make (Lead.id l) (Lead.name l) (Lead.email l) (Lead.company l) "REPLIED"
    (match c with Some k => Some (c_score k) | None => Lead.lead_score l end)
    (match c with Some k => Some (c_priority k) | None => Lead.lead_priority l end)
    (match c with Some k => Some (c_intent k) | None => Lead.last_reply_intent l end)
    (Some at_time).

Definition new_reply (i : Z) (m : mail) (c : option classification)
    (lead : Lead.t) (o : Outbound.t) : Reply.t :=
  Reply.Make i (Lead.id lead) (Outbound.id o) (text m) (received m)
    (c_intent <$> c) (c_score <$> c) (c_priority <$> c)
    (match c with Some k => c_reasons k | None => [] end)
    None None None None None UNSTARTED None None None None.

(** Modelled from the spec: one message of the mailbox. A message without a
    matching outbound email is skipped, and so is a message for an outbound
    email that already has an inbound reply; otherwise the reply is
    classified (a failed classification leaves the fields unset) and the
    reply, the outbound email and the lead are updated together. The result
    tells whether a reply was ingested. *)
Definition ingest (m : mail) (s : state) : bool * state :=
  match in_reply_to m ≫= (λ token, find_outbound token s) with
  | None => (false, s)
  | Some o =>
      if has_reply (Outbound.id o) s then (false, s)
      else
        match leads s !! Outbound.lead_id o with
        | None => (false, s)
        | Some lead =>
            let c := classify ext m lead o in
            (true,
             with_next_id (next_id s + 1)
               (with_replies (<[next_id s := new_reply (next_id s) m c lead o]> (replies s))
                  (with_outbound (<[Outbound.id o := mark_replied c o]> (outbound s))
                     (with_leads
                        (<[Outbound.lead_id o := lead_replied c (received m) lead]> (leads s))
                        s))))
        end
  end.

Definition ingest_all (ms : list mail) (s : state) : Z * state :=
  foldl (λ acc m, let '(found, s') := ingest m acc.2 in
                  (if found then acc.1 + 1 else acc.1, s'))
        (0, s) ms.

(** The messages that arrived since the last sync. *)
Definition unseen (s : state) : list mail :=
  List.filter (λ m, checkpoint s <? uid m) (mailbox s).

(** Modelled from the spec: [syncReplies] "polls the external mailbox for new
    messages since the last sync checkpoint" and "returns a count of newly
    ingested replies"; the checkpoint moves to the last message seen. *)
Definition syncReplies (s : state) : (error + Api.synced) * state :=
  let ms := unseen s in
  let '(found, s') := ingest_all ms s in
  (inr (Api.Synced (Some "Sync complete") found),
   with_checkpoint (foldl Z.max (checkpoint s) (uid <$> ms)) s').

(** ** 4.4 Next-action generator *)

Definition stored_action (r : Reply.t) : NextAction.t :=
  NextAction.Make (Reply.next_action_title r) (Reply.next_action_steps r)
    (Reply.urgency r) (Reply.followup_days r) (Reply.suggested_tone r).

Definition with_action (a : NextAction.t) (r : Reply.t) : Reply.t :=
  Reply.Make (Reply.id r) (Reply.lead_id r) (Reply.outbound_email_id r)
    (Reply.body_preview r) (Reply.received_at r) (Reply.intent r)
    (Reply.reply_score r) (Reply.priority r) (Reply.reasons r)
    (NextAction.next_action_title a) (NextAction.next_action_steps a)
    (NextAction.urgency a) (NextAction.followup_days a) (NextAction.suggested_tone a)
    (Reply.draft_status r) (Reply.draft_tone r) (Reply.draft_subject r)
    (Reply.draft_body r) (Reply.attachments r).

(** Modelled from the spec: the stored action is returned unless [force] is
    set; a failed generation leaves the stored action untouched. *)
Definition generateNextAction (replyId : Z) (force : bool) (s : state)
    : (error + NextAction.t) * state :=
  match replies s !! replyId with
  | None => (inl (NotFoundError "Reply not found"), s)
  | Some r =>
      if negb force && bool_decide (is_Some (Reply.next_action_title r))
      then (inr (stored_action r), s)
      else
        let s1 := with_provider_log (provider_log s ++ [SuggestCall replyId]) s in
        match suggest ext r (length (provider_log s)) with
        | None => (inl (ProviderError "Failed to generate next action"), s1)
        | Some a => (inr a, with_replies (<[replyId := with_action a r]> (replies s)) s1)
        end
  end.

(** ** 4.5 Draft generator *)

(** The stored draft of a reply, if there is one. *)
Definition stored_draft (r : Reply.t) : option (tone * string * string) :=
  t ← Reply.draft_tone r ≫= parse_tone;
  subject ← Reply.draft_subject r;
  body ← Reply.draft_body r;
  Some (t, subject, body).

(** Modelled from the spec: "persist draft_subject, draft_body, draft_tone,
    set draft_status=DRAFTED" (4.5), whatever the status before. *)
Definition with_draft (t : tone) (subject body : string) (r : Reply.t) : Reply.t :=
  Reply.Make (Reply.id r) (Reply.lead_id r) (Reply.outbound_email_id r)
    (Reply.body_preview r) (Reply.received_at r) (Reply.intent r)
    (Reply.reply_score r) (Reply.priority r) (Reply.reasons r)
    (Reply.next_action_title r) (Reply.next_action_steps r) (Reply.urgency r)
    (Reply.followup_days r) (Reply.suggested_tone r)
    DRAFTED (Some (tone_name t)) (Some subject)
    (Some body) (Reply.attachments r).

(** Modelled from the spec: the call of the external drafting capability and
    the persisting of draft_subject, draft_body, draft_tone and draft_status
    (4.5); a failed call persists nothing. *)
Definition compose_draft (replyId : Z) (t : tone) (r : Reply.t) (s : state)
    : (error + Draft.t) * state :=
  let s1 := with_provider_log (provider_log s ++ [DraftCall replyId t]) s in
  match compose ext r t (length (provider_log s)) with
  | None => (inl (ProviderError "Failed to generate draft"), s1)
  | Some (subject, body) =>
      (inr (Draft.Make subject body false),
       with_replies (<[replyId := with_draft t subject body r]> (replies s)) s1)
  end.

(** Modelled from the spec: "if a draft exists for this reply with the same
    tone and force=false, return cached (cached=true in the result).
    Otherwise call the external drafting capability [...]; persist
    draft_subject, draft_body, draft_tone, set draft_status=DRAFTED." *)
Definition generateDraft (replyId : Z) (tone_text : string) (force : bool) (s : state)
    : (error + Draft.t) * state :=
  match parse_tone tone_text with
  | None => (inl (ValidationError "Invalid tone"), s)
  | Some t =>
      match replies s !! replyId with
      | None => (inl (NotFoundError "Reply not found"), s)
      | Some r =>
          match stored_draft r with
          | Some (t', subject, body) =>
              if negb force && bool_decide (t' = t)
              then (inr (Draft.Make subject body true), s)
              else compose_draft replyId t r s
          | None => compose_draft replyId t r s
          end
      end
  end.

(** ** 4.6 Send-draft pipeline *)

Definition with_draft_status (d : draft_lifecycle) (r : Reply.t) : Reply.t :=
  Reply.Make (Reply.id r) (Reply.lead_id r) (Reply.outbound_email_id r)
    (Reply.body_preview r) (Reply.received_at r) (Reply.intent r)
    (Reply.reply_score r) (Reply.priority r) (Reply.reasons r)
    (Reply.next_action_title r) (Reply.next_action_steps r) (Reply.urgency r)
    (Reply.followup_days r) (Reply.suggested_tone r)
    d (Reply.draft_tone r) (Reply.draft_subject r) (Reply.draft_body r)
    (Reply.attachments r).

(** Modelled from the spec: [sendDraftReply] "validates non-empty
    subject/body; dispatches via the external transport threaded against the
    original OutboundEmail's message id; [...] on transport success sets
    draft_status=SENT; on transport failure returns SendError and leaves
    draft_status unchanged". *)
Definition sendDraftReply (replyId : Z) (data : SendData.t) (s : state)
    : (error + Api.sent) * state :=
  if bool_decide (SendData.edited_subject data = "")
     || bool_decide (SendData.edited_body data = "")
  then (inl (ValidationError "Subject and body are required"), s)
  else
    match replies s !! replyId with
    | None => (inl (NotFoundError "Reply not found"), s)
    | Some r =>
        match outbound s !! Reply.outbound_email_id r with
        | None => (inl (NotFoundError "Original email not found"), s)
        | Some o =>
            let d := Dispatch (Outbound.message_id o) (SendData.edited_subject data)
                       (SendData.edited_body data)
                       (default [] (SendData.attachments data)) in
            let accepted := transport ext d (length (transport_log s)) in
            let s1 := with_transport_log (transport_log s ++ [(d, accepted)]) s in
            if accepted
            then (inr (Api.Sent "Reply sent" None),
                  with_replies
                    (<[replyId := with_draft_status SENT r]> (replies s)) s1)
            else (inl (TransportError "Failed to send reply"), s1)
        end
    end.

(** Modelled from the spec: [POST /replies/upload-attachment] hands the file to
    the external storage and returns its reference (6). *)
Definition uploadAttachment (f : Api.file) (s : state) : (error + Attachment.t) * state :=
  match storage ext f with
  | Some a => (inr a, s)
  | None => (inl (ValidationError "Upload failed"), s)
  end.

(** ** 6 The REST interface *)

(** Modelled from the spec: "All mutating endpoints return 4xx with a detail
    message string on failure", and the result as JSON otherwise. *)
Definition respond {A} (r : error + A) : Api.response A :=
  match r with
  | inl e => Api.NotOk (Returned (Api.JObj [("detail", Api.JStr (error_detail e))]))
  | inr a => Api.Ok (Returned a)
  end.

Definition answer {A} (r : (error + A) * state) : outcome (Api.response A) * state :=
  (Returned (respond r.1), r.2).

(** Modelled from the spec: the endpoints of section 6, as the [fetch] of the
    API client sees them. *)
Definition serve (A : Type) (req : Api.request A) : M state (Api.response A) :=
  match req in Api.request A return M state (Api.response A) with
  | Api.POST_leads leadData => λ s, answer (createLead leadData s)
  | Api.GET_leads => λ s, (Returned (Api.Ok (Returned (listLeads s))), s)
  | Api.POST_emails_send emailData => λ s, answer (recordSend emailData s)
  | Api.GET_emails_outbound => λ s, (Returned (Api.Ok (Returned (listOutbound s))), s)
  | Api.POST_sync_replies => λ s, answer (syncReplies s)
  | Api.GET_replies_inbound_replies =>
      λ s, (Returned (Api.Ok (Returned (listReplies s))), s)
  | Api.POST_generate_next_action replyId force =>
      λ s, answer (generateNextAction replyId force s)
  | Api.POST_generate_draft replyId tone force =>
      λ s, answer (generateDraft replyId tone force s)
  | Api.POST_upload_attachment f => λ s, answer (uploadAttachment f s)
  | Api.POST_send_draft replyId data => λ s, answer (sendDraftReply replyId data s)
  end.

(** What a function of the API client makes of the answer to its request: an
    error becomes a thrown [Error] with the [detail] as message. *)
Definition client_view {A} (fallback : string) (r : (error + A) * state)
    : outcome A * state :=
  (match r.1 with
   | inl e => Thrown (Error (str_or (error_detail e) fallback))
   | inr a => Returned a
   end, r.2).

(** The operations of the back end, and the arrival of mail. *)
Inductive operation :=
| OpCreateLead (form : Api.LeadForm.t)
| OpRecordSend (form : Api.EmailForm.t)
| OpSyncReplies
| OpGenerateNextAction (replyId : Z) (force : bool)
| OpGenerateDraft (replyId : Z) (tone_text : string) (force : bool)
| OpUploadAttachment (f : Api.file)
| OpSendDraftReply (replyId : Z) (data : SendData.t)
| OpArrive (m : mail).

Definition step (op : operation) (s : state) : state :=
  match op with
  | OpCreateLead form => (createLead form s).2
  | OpRecordSend form => (recordSend form s).2
  | OpSyncReplies => (syncReplies s).2
  | OpGenerateNextAction replyId force => (generateNextAction replyId force s).2
  | OpGenerateDraft replyId tone_text force => (generateDraft replyId tone_text force s).2
  | OpUploadAttachment f => (uploadAttachment f s).2
  | OpSendDraftReply replyId data => (sendDraftReply replyId data s).2
  | OpArrive m => arrive m s
  end.

Definition run (ops : list operation) (s : state) : state :=
  foldl (λ s op, step op s) s ops.

(** The draft status of a reply; a reply that is not stored has not started. *)
Definition status_of (replyId : Z) (s : state) : draft_lifecycle :=
  match replies s !! replyId with
  | Some r => Reply.draft_status r
  | None => UNSTARTED
  end.

(** The stored records are consistent: identifiers come from the counter, an
    outbound email is stored under its identifier and carries the token
    generated for it, and an outbound email has at most one inbound reply. *)
Record consistent (s : state) : Prop := Consistent {
  reply_ids_fresh : ∀ i r, replies s !! i = Some r → i < next_id s;
  outbound_ids_fresh : ∀ i o, outbound s !! i = Some o → i < next_id s;
  outbound_keys : ∀ i o, outbound s !! i = Some o → Outbound.id o = i;
  outbound_tokens :
    ∀ i o, outbound s !! i = Some o → Outbound.message_id o = fresh_token ext i;
  one_reply_per_email :
    ∀ i j ri rj, replies s !! i = Some ri → replies s !! j = Some rj →
      Reply.outbound_email_id ri = Reply.outbound_email_id rj → i = j;
}.

(** From [s] to [s'] the identifier counter and the outbound emails are the
    same, and a stored reply is either the same or still answers the same
    outbound email. *)
Definition rewrites (s s' : state) : Prop :=
  next_id s' = next_id s
  ∧ outbound s' = outbound s
  ∧ ∀ i, replies s' !! i = replies s !! i
         ∨ ∃ r r', replies s !! i = Some r ∧ replies s' !! i = Some r'
                   ∧ Reply.outbound_email_id r' = Reply.outbound_email_id r.



(** The state of a fresh installation. *)
Definition empty : state := State ∅ ∅ ∅ [] 0 1 [] [].

End Server.

(** ** A small installation, for examples *)

(** Collaborators that accept every address, classify every reply as
    interested, draft a text that names the tone and the number of the call,
    and a transport that rejects the messages whose subject is "bounce". *)
Definition sample_ext : collaborators :=
  Collaborators
    (λ _, true)
    (λ i, "msg-" +:+ pretty i)
    (λ _ _ _, Some (Classification "INTERESTED" 80 "HIGH" ["asks for a call"]))
    (λ _ _, Some (NextAction.Make (Some "Call") (Some ["Propose a time"]) (Some "TODAY")
                    (Some 2) (Some "FRIENDLY")))
    (λ _ t n, Some ("Re: " +:+ tone_name t, "Draft " +:+ pretty n))
    (λ d _, negb (bool_decide (d_subject d = "bounce")))
    (λ f, Some (Attachment.Make (Api.local_name f) "bucket/1"))
    (λ _, 0).

(** One lead, one email sent to it, and its reply with a stored FRIENDLY
    draft. *)
Definition sample_state : state :=
  State
    {[ 1 := Lead.Make 1 "Ada" "ada@example.com" None "REPLIED" (Some 80) (Some "HIGH")
              (Some "INTERESTED") (Some 5) ]}
    {[ 2 := Outbound.Make 2 1 "Hi" "Hello Ada" "msg-2" 3 true (Some 80)
              (Some "INTERESTED") None (Some "HIGH") ]}
    {[ 3 := Reply.Make 3 1 2 "Sounds good" 5 (Some "INTERESTED") (Some 80) (Some "HIGH")
              ["asks for a call"] None None None None None
              DRAFTED (Some "FRIENDLY") (Some "Re: Hi") (Some "Thanks Ada") None ]}
    [ Mail 1 (Some "msg-2") "Sounds good" 5 ] 1 4 [DraftCall 3 FRIENDLY] [].

End Backend.


(** * The plain getters of the API client *)
Module Getters.
Import Js Api.

(** The functions that only read: [getLeads], [getOutboundEmails] and
    [getInboundReplies]. *)
Inductive getter : Type → Type :=
| GetLeads : getter (list Lead.t)
| GetOutboundEmails : getter (list Outbound.t)
| GetInboundReplies : getter (list Reply.t).

Definition run {S A} (fetch : ∀ A, request A → M S (response A)) (g : getter A) : M S A :=
  match g with
  | GetLeads => getLeads fetch
  | GetOutboundEmails => getOutboundEmails fetch
  | GetInboundReplies => getInboundReplies fetch
  end.

Definition request_of {A} (g : getter A) : request A :=
  match g with
  | GetLeads => GET_leads
  | GetOutboundEmails => GET_emails_outbound
  | GetInboundReplies => GET_replies_inbound_replies
  end.

Definition fixed_message {A} (g : getter A) : string :=
  match g with
  | GetLeads => "Failed to fetch leads"
  | GetOutboundEmails => "Failed to fetch outbound emails"
  | GetInboundReplies => "Failed to fetch replies"
  end.

(** A JSON object without a property named [toString], as the items of the
    list of validation errors of a 422 answer (whose properties are [loc],
    [msg] and [type]). *)
Definition is_object (v : json) : Prop :=
  match v with
  | JObj fields => own_property "toString" fields = None
  | _ => False
  end.

End Getters.

(** * The Leads page, component [Leads]: loading and the form *)
Module LeadsPage.
Import Js.

(** The [useState] cells of the component. *)
Record component := Component {
  leads : list Lead.t;
  loading : bool;
  formData : Api.LeadForm.t;
  submitting : bool;
  message : option (string * string);
  priorityFilter : string;
  intentFilter : string;
}.

(** [useState] initial values. *)
Definition initial : component :=
  Component [] true (Api.LeadForm.Make "" "" "") false None "ALL" "ALL".

(** The inputs of the form, by their [name] attribute. *)
Inductive field :=
| name_field
| email_field
| company_field.

(** [{ ...formData, [e.target.name]: e.target.value }] *)
Definition with_field (f : field) (value : string) (form : Api.LeadForm.t) : Api.LeadForm.t :=
  match f with
  | name_field =>
      Api.LeadForm.Make value (Api.LeadForm.email form) (Api.LeadForm.company form)
  | email_field =>
      Api.LeadForm.Make (Api.LeadForm.name form) value (Api.LeadForm.company form)
  | company_field =>
      Api.LeadForm.Make (Api.LeadForm.name form) (Api.LeadForm.email form) value
  end.

Section Page.
Context {S : Type} (fetch : ∀ A, Api.request A → M S (Api.response A)).

Definition world : Type := component * S.

Definition api {A} (call : M S A) : M world A :=
  λ w, let '(r, s') := call w.2 in (r, (w.1, s')).

Definition set_component (f : component → component) : M world unit :=
  modify (λ w, (f w.1, w.2)).

Definition setLeads (v : list Lead.t) : M world unit :=
  set_component (λ c,
    Component v (loading c) (formData c) (submitting c) (message c)
      (priorityFilter c) (intentFilter c)).

Definition setLoading (v : bool) : M world unit :=
  set_component (λ c,
    Component (leads c) v (formData c) (submitting c) (message c)
      (priorityFilter c) (intentFilter c)).

Definition setFormData (v : Api.LeadForm.t) : M world unit :=
  set_component (λ c,
    Component (leads c) (loading c) v (submitting c) (message c)
      (priorityFilter c) (intentFilter c)).

Definition setSubmitting (v : bool) : M world unit :=
  set_component (λ c,
    Component (leads c) (loading c) (formData c) v (message c)
      (priorityFilter c) (intentFilter c)).

Definition setMessage (v : option (string * string)) : M world unit :=
  set_component (λ c,
    Component (leads c) (loading c) (formData c) (submitting c) v
      (priorityFilter c) (intentFilter c)).

Definition setPriorityFilter (v : string) : M world unit :=
  set_component (λ c,
    Component (leads c) (loading c) (formData c) (submitting c) (message c)
      v (intentFilter c)).

Definition setIntentFilter (v : string) : M world unit :=
  set_component (λ c,
    Component (leads c) (loading c) (formData c) (submitting c) (message c)
      (priorityFilter c) v).

(** [loadLeads]: a failure is only written to the console. *)
Definition loadLeads : M world unit :=
  finally
    (try_catch
       (data ← api (Api.getLeads fetch);
        setLeads data)
       (λ error, mret ()))
    (setLoading false).

(** [handleSubmit], after [e.preventDefault()]. *)
Definition handleSubmit : M world unit :=
  w ← get;
  setSubmitting true;;
  setMessage None;;
  finally
    (try_catch
       (api (Api.createLead fetch (formData w.1));;
        setMessage (Some ("success", "Lead created successfully!"));;
        setFormData (Api.LeadForm.Make "" "" "");;
        loadLeads)
       (λ error,
          setMessage (Some ("error", str_or (Js.message error) "Failed to create lead"))))
    (setSubmitting false).

Definition handleChange (f : field) (value : string) : M world unit :=
  w ← get;
  setFormData (with_field f value (formData w.1)).

End Page.

(** A server that creates every lead and lists the given leads. *)
Definition accepting (listed : list Lead.t) (A : Type) (req : Api.request A)
    : M unit (Api.response A) :=
  match req in Api.request A return M unit (Api.response A) with
  | Api.POST_leads form =>
      λ s, (Returned (Api.Ok (Returned
              (Lead.Make 1 (Api.LeadForm.name form) (Api.LeadForm.email form) None
                 "NEW" None None None None))), s)
  | Api.GET_leads => λ s, (Returned (Api.Ok (Returned listed)), s)
  | _ => λ s, (Returned (Api.NotOk (Returned (Api.JObj [("detail", Api.JStr "Unavailable")]))), s)
  end.

(** The rows of the table. *)
Definition displayed (c : component) : list Lead.t :=
  Leads.filteredLeads (priorityFilter c) (intentFilter c) (leads c).

(** The sort key of a lead with a plain priority. *)
Definition sort_key (l : Lead.t) : Z * Z :=
  (Leads.level (Lead.lead_priority l), Leads.score l).

(** Descending score. *)
Definition score_above (a b : Lead.t) : Prop := Leads.score b ≤ Leads.score a.

End LeadsPage.

(** * The dashboard, component [Dashboard] *)
Module Dashboard.
Import Js.

Record counters := Counters {
  totalLeads : nat;
  emailed : nat;
  replied : nat;
  highPriority : nat;
  mediumPriority : nat;
  lowPriority : nat;
  ignorePriority : nat;
}.

(** The [useState] cells of the component. *)
Record component := Component {
  stats : counters;
  syncing : bool;
  message : option (string * string);
}.

Definition initial : component :=
  Component (Counters 0 0 0 0 0 0 0) false None.

(** [leads.filter(p).length] *)
Definition count (p : Lead.t → bool) (leads : list Lead.t) : nat :=
  length (List.filter p leads).

(** [l.lead_priority === label] *)
Definition has_priority (label : string) (l : Lead.t) : bool :=
  bool_decide (Lead.lead_priority l = Some label).

(** The counters [loadStats] computes from the leads. *)
Definition compute (leads : list Lead.t) : counters :=
  Counters
    (length leads)
    (count (λ l, bool_decide (Lead.status l = "EMAILED")
                 || bool_decide (Lead.status l = "REPLIED")) leads)
    (count (λ l, bool_decide (Lead.status l = "REPLIED")) leads)
    (count (has_priority "HIGH") leads)
    (count (has_priority "MEDIUM") leads)
    (count (has_priority "LOW") leads)
    (count (has_priority "IGNORE") leads).

(** A lead that none of the four priority cards counts. *)
Definition unranked (l : Lead.t) : bool :=
  negb (has_priority "HIGH" l || has_priority "MEDIUM" l
        || has_priority "LOW" l || has_priority "IGNORE" l).

Section Page.
Context {S : Type} (fetch : ∀ A, Api.request A → M S (Api.response A)).

Definition world : Type := component * S.

Definition api {A} (call : M S A) : M world A :=
  λ w, let '(r, s') := call w.2 in (r, (w.1, s')).



Definition setMessage (v : option (string * string)) : M world unit :=
  modify (λ w, (Component (stats w.1) (syncing w.1) v, w.2)).




End Page.

End Dashboard.

(** * The outbound emails page, component [OutboundEmails] *)
Module OutboundEmails.
Import Js.

(** The [useState] cells of the component; [leads] is the object that maps a
    lead id to its lead. *)
Record component := Component {
  emails : list Outbound.t;
  leads : gmap Z Lead.t;
  loading : bool;
  expandedId : option Z;
}.

Definition initial : component := Component [] ∅ true None.

(** [leadsData.forEach((lead) => { leadsMap[lead.id] = lead })] *)
Definition leadsMap (leadsData : list Lead.t) : gmap Z Lead.t :=
  foldl (λ m lead, <[Lead.id lead := lead]> m) ∅ leadsData.

(** [await Promise.all([first, second])]: both calls are started, in this
    order, whether or not the other fails, and the result is the pair of
    their values when both succeed. When one of them fails the whole is
    rejected (the page does not look at the error; the one of the first call
    is taken here when both fail). *)
Definition all2 {S A B} (first : M S A) (second : M S B) : M S (A * B) :=
  λ s, let '(r1, s1) := first s in
       let '(r2, s2) := second s1 in
       (match r1, r2 with
        | Returned a, Returned b => Returned (a, b)
        | Thrown e, _ => Thrown e
        | _, Thrown e => Thrown e
        end, s2).

Section Page.
Context {S : Type} (fetch : ∀ A, Api.request A → M S (Api.response A)).

Definition world : Type := component * S.

Definition api {A} (call : M S A) : M world A :=
  λ w, let '(r, s') := call w.2 in (r, (w.1, s')).

Definition setEmails (v : list Outbound.t) : M world unit :=
  modify (λ w, (Component v (leads w.1) (loading w.1) (expandedId w.1), w.2)).

Definition setLeads (v : gmap Z Lead.t) : M world unit :=
  modify (λ w, (Component (emails w.1) v (loading w.1) (expandedId w.1), w.2)).

Definition setLoading (v : bool) : M world unit :=
  modify (λ w, (Component (emails w.1) (leads w.1) v (expandedId w.1), w.2)).

Definition setExpandedId (v : option Z) : M world unit :=
  modify (λ w, (Component (emails w.1) (leads w.1) (loading w.1) v, w.2)).

(** [loadData]: a failure is only written to the console. *)
Definition loadData : M world unit :=
  finally
    (try_catch
       (both ← api (all2 (Api.getOutboundEmails fetch) (Api.getLeads fetch));
        setEmails both.1;;
        setLeads (leadsMap both.2))
       (λ error, mret ()))
    (setLoading false).

Definition toggleExpanded (emailId : Z) : M world unit :=
  w ← get;
  setExpandedId (if decide (expandedId w.1 = Some emailId) then None else Some emailId).

End Page.

(** [leads[email.lead_id]], the recipient shown for an email. *)
Definition recipient (c : component) (email : Outbound.t) : option Lead.t :=
  leads c !! Outbound.lead_id email.

End OutboundEmails.

(** * More vocabulary for the Replies inbox *)
Module InboxVocabulary.
Import Js RepliesInbox.

(** The last element of a list that satisfies [p]. *)
Definition last_such {A} (p : A → bool) (l : list A) : option A :=
  last (List.filter p l).

(** The uploads of [handleFileSelect], as the server sees them: one request
    per file, in order, up to the first that fails. *)
Fixpoint uploads {S} (fetch : ∀ A, Api.request A → M S (Api.response A))
    (files : list Api.file) : M S (list Attachment.t) :=
  match files with
  | [] => mret []
  | file :: files' =>
      fileData ← Api.uploadAttachment fetch file;
      uploadedFiles ← uploads fetch files';
      mret (fileData :: uploadedFiles)
  end.

(** No control of the entry is busy: a flag that is [undefined] counts as
    false, as in the page. *)
Definition idle (st : reply_state) : Prop :=
  generatingAction st ≠ Some true ∧ generatingDraft st ≠ Some true
  ∧ uploadingFile st ≠ Some true ∧ sending st ≠ Some true.

(** The busy flag a handler raises while it runs. *)
Definition busy_flag (a : action) (st : reply_state) : option bool :=
  match a with
  | GenerateNextAction _ => generatingAction st
  | GenerateDraft _ => generatingDraft st
  | FileSelect _ => uploadingFile st
  | RemoveAttachment _ => Some false
  | SendDraft => sending st
  end.

(** A server for the Replies inbox that stores every uploaded file and
    rejects everything else. *)
Definition uploads_only (A : Type) (req : Api.request A) : M unit (Api.response A) :=
  match req in Api.request A return M unit (Api.response A) with
  | Api.POST_upload_attachment f =>
      λ s, (Returned (Api.Ok (Returned (Attachment.Make (Api.local_name f) "bucket/1"))), s)
  | _ => λ s, (Returned (Api.NotOk (Returned (Api.JObj [("detail", Api.JStr "Unavailable")]))), s)
  end.

End InboxVocabulary.

(** * Properties of the Leads page *)
Module LeadsSpec.
Import Lead Leads.

(** ** The sort of [Js] *)
Section Sort.
Context {A : Type} (comparefn : A → A → Js.number).

Lemma insert_Permutation (x : A) (l : list A) :
  Js.insert comparefn x l ≡ₚ x :: l.
Proof.
  induction l as [|y l IH]; simpl; [done|].
  destruct (0 <? Js.SortCompare comparefn x y); [|done].
  rewrite IH. apply perm_swap.
Qed.

Lemma sort_Permutation (l : list A) : Js.sort comparefn l ≡ₚ l.
Proof.
  induction l as [|x l IH]; simpl; [done|].
  by rewrite insert_Permutation, IH.
Qed.

(** A relation [R] that the comparator decides on a class [P] of elements:
    a positive result puts the second argument first. *)
Context (P : A → Prop) (R : A → A → Prop).
Hypothesis R_trans : ∀ x y z, R x y → R y z → R x z.
Hypothesis pos_R : ∀ x y, P x → P y → 0 < Js.SortCompare comparefn x y → R y x.
Hypothesis nonpos_R : ∀ x y, P x → P y → Js.SortCompare comparefn x y ≤ 0 → R x y.

Lemma insert_StronglySorted (x : A) (l : list A) :
  P x → Forall P l → StronglySorted R l →
  StronglySorted R (Js.insert comparefn x l).
Proof.
  intros Px HP Hs. induction Hs as [|y l Hs IH Hy]; simpl.
  - repeat constructor.
  - apply Forall_cons in HP as [Py HP].
    destruct (Z.ltb_spec 0 (Js.SortCompare comparefn x y)) as [Hlt|Hle].
    + constructor; [by apply IH|].
      rewrite insert_Permutation. constructor; [by apply pos_R | done].
    + assert (R x y) by by apply nonpos_R.
      constructor; [by constructor|].
      constructor; [done|].
      eapply Forall_impl; [exact Hy|]. intros z Hz. by eapply R_trans.
Qed.

Lemma sort_StronglySorted (l : list A) :
  Forall P l → StronglySorted R (Js.sort comparefn l).
Proof.
  induction l as [|x l IH]; simpl; intros HP; [constructor|].
  apply Forall_cons in HP as [Px HP].
  apply insert_StronglySorted; [done| |by apply IH].
  by rewrite sort_Permutation.
Qed.

End Sort.

(** Positions in a strongly sorted list are related. *)
Lemma StronglySorted_positions {A} (R : A → A → Prop) (l : list A) :
  StronglySorted R l →
  ∀ (i j : nat) a b, (i < j)%nat → l !! i = Some a → l !! j = Some b → R a b.
Proof.
  induction 1 as [|x l Hs IH Hx]; intros i j a b Hij Hi Hj; [done|].
  destruct j as [|j]; [lia|]. simpl in Hj.
  destruct i as [|i]; simpl in Hi.
  - simplify_eq. rewrite Forall_forall in Hx. apply Hx.
    eapply list_elem_of_lookup_2; eauto.
  - eapply IH; [|done..]. lia.
Qed.

(** ** Ranks *)

Lemma rank_plain (p : option string) :
  plain_priority p → rank p = RNum (level p).
Proof.
  unfold level, rank. intros Hp. destruct p as [k|]; [|done].
  destruct (Js.own_property k priorityRank); [done|].
  case_decide; [|done]. by destruct (Hp k).
Qed.

(** A plain priority outside the four labels, or a missing one, has rank 0. *)
Lemma rank_unknown (p : option string) :
  plain_priority p →
  p ≠ Some "HIGH" → p ≠ Some "MEDIUM" → p ≠ Some "LOW" → p ≠ Some "IGNORE" →
  rank p = RNum 0.
Proof.
  unfold rank. intros Hp ????. destruct p as [k|]; [|done].
  simpl. repeat case_decide; simplify_eq; try done. by destruct (Hp k).
Qed.

Lemma level_outranks (p q : option string) :
  outranks p q → level q < level p.
Proof. by destruct 1; vm_compute. Qed.

Lemma compare_leads_plain (a b : Lead.t) :
  plain a → plain b →
  compare_leads a b =
    Js.Int (if decide (level (lead_priority a) = level (lead_priority b))
            then score b - score a
            else level (lead_priority b) - level (lead_priority a)).
Proof.
  unfold plain, compare_leads. intros Ha Hb.
  rewrite (rank_plain _ Ha), (rank_plain _ Hb). simpl.
  case_decide as Heq.
  - by rewrite Heq, Z.eqb_refl.
  - by apply Z.eqb_neq in Heq as ->.
Qed.

Lemma above_trans (a b c : Lead.t) : above a b → above b c → above a c.
Proof. unfold above. lia. Qed.

Lemma compare_pos_above (a b : Lead.t) :
  plain a → plain b → 0 < Js.SortCompare compare_leads a b → above b a.
Proof.
  intros Ha Hb. unfold Js.SortCompare, above.
  rewrite compare_leads_plain by done. case_decide; lia.
Qed.

Lemma compare_nonpos_above (a b : Lead.t) :
  plain a → plain b → Js.SortCompare compare_leads a b ≤ 0 → above a b.
Proof.
  intros Ha Hb. unfold Js.SortCompare, above.
  rewrite compare_leads_plain by done. case_decide; lia.
Qed.

Lemma filteredLeads_above (pf intf : string) (leads : list Lead.t) :
  Forall plain leads → StronglySorted above (filteredLeads pf intf leads).
Proof.
  intros Hp. unfold filteredLeads.
  apply (sort_StronglySorted compare_leads plain above).
  - apply above_trans.
  - apply compare_pos_above.
  - apply compare_nonpos_above.
  - rewrite Forall_forall in *. intros x Hx. apply Hp.
    apply list_elem_of_In in Hx. apply filter_In in Hx as [Hx _].
    by apply list_elem_of_In.
Qed.

(** C1: on the Leads page the leads that pass the two filters are displayed
    sorted by priority, HIGH before MEDIUM before LOW before IGNORE, and leads
    of one priority by descending score; the leads LOW/10, HIGH/90, MEDIUM/50,
    HIGH/70 are displayed as HIGH/90, HIGH/70, MEDIUM/50, LOW/10. *)
Theorem filteredLeads_display_order :
  (∀ (priorityFilter intentFilter : string) (leads : list Lead.t),
     Forall plain leads →
     filteredLeads priorityFilter intentFilter leads
       ≡ₚ List.filter (passes_filters priorityFilter intentFilter) leads
     ∧ ∀ (i j : nat) (a b : Lead.t),
         (i < j)%nat →
         filteredLeads priorityFilter intentFilter leads !! i = Some a →
         filteredLeads priorityFilter intentFilter leads !! j = Some b →
         ¬ outranks (lead_priority b) (lead_priority a)
         ∧ (lead_priority a = lead_priority b → score b ≤ score a))
  ∧ label <$> filteredLeads "ALL" "ALL" example_leads
    = [ (Some "HIGH", 90); (Some "HIGH", 70); (Some "MEDIUM", 50); (Some "LOW", 10) ].
Proof.
  split; [|reflexivity].
  intros pf intf leads Hp. split.
  - apply sort_Permutation.
  - intros i j a b Hij Hi Hj.
    pose proof (StronglySorted_positions _ _ (filteredLeads_above pf intf leads Hp)
                  i j a b Hij Hi Hj) as Hab.
    split.
    + intros Hout%level_outranks. unfold above in Hab. lia.
    + intros Heq. unfold above in Hab. rewrite Heq in Hab. lia.
Qed.

Lemma example_leads_plain : Forall plain example_leads.
Proof.
  repeat constructor; intros k [= <-]; by apply (bool_decide_unpack _).
Qed.

Lemma filteredLeads_display_order_witness :
  Forall plain example_leads
  ∧ filteredLeads "ALL" "ALL" example_leads
      ≡ₚ List.filter (passes_filters "ALL" "ALL") example_leads.
Proof.
  split; [exact example_leads_plain|].
  apply (proj1 filteredLeads_display_order "ALL" "ALL" example_leads
           example_leads_plain).
Defined.

(** C10 (the code at the failing input): a lead whose priority is the string
    "constructor" does not get rank 0, since the read of the rank table finds
    the member of that name inherited from [Object.prototype]; its comparison
    with an IGNORE lead is NaN, and the page displays it above the IGNORE
    lead, whereas a lead of an unknown priority such as "URGENT" has rank 0
    and is displayed below. *)
Theorem inherited_priority_above_ignore :
  rank (Some "constructor") = RInherited "constructor"
  ∧ compare_leads (sample 1 "constructor" 0) (sample 2 "IGNORE" 0) = Js.NaN
  ∧ filteredLeads "ALL" "ALL" [ sample 1 "constructor" 0; sample 2 "IGNORE" 0 ]
    = [ sample 1 "constructor" 0; sample 2 "IGNORE" 0 ]
  ∧ filteredLeads "ALL" "ALL" [ sample 1 "URGENT" 0; sample 2 "IGNORE" 0 ]
    = [ sample 2 "IGNORE" 0; sample 1 "URGENT" 0 ].
Proof. repeat split; reflexivity. Qed.

End LeadsSpec.

(** * Properties of the API client *)
Module ApiSpec.
Import Js Api.

Section Client.
Context {S : Type} (fetch : ∀ A, request A → M S (response A)).

(** Each mutating function is the shared body applied to the answer to its
    request, with its own fallback message. *)
Lemma run_settle {A} (c : mutating A) :
  run fetch c = (response ← fetch A (request_of c); settle (fallback c) response).
Proof. by destruct c. Qed.

Lemma run_answered {A} (c : mutating A) (s s' : S) (r : response A) :
  fetch A (request_of c) s = (Returned r, s') →
  run fetch c s = settle (fallback c) r s'.
Proof.
  intros Hf. rewrite run_settle. unfold mbind, M_bind, bind. by rewrite Hf.
Qed.

Lemma run_network_failure {A} (c : mutating A) (s s' : S) (e : exn) :
  fetch A (request_of c) s = (Thrown e, s') →
  run fetch c s = (Thrown e, s').
Proof.
  intros Hf. rewrite run_settle. unfold mbind, M_bind, bind. by rewrite Hf.
Qed.

End Client.

(** C8 (amended): for each of createLead, sendEmail, syncReplies,
    generateNextAction, generateDraft, uploadAttachment and sendDraftReply, a
    response that is not ok and whose body is a JSON object makes the function
    throw an Error whose message is the [detail] string of the body when that
    string is not empty, and the fixed message of the function when [detail]
    is absent or the empty string; a response that is ok makes it return the
    parsed body. *)
Theorem mutating_call_outcome {S A : Type}
    (fetch : ∀ A, request A → M S (response A))
    (c : mutating A) (s s' : S) (r : response A) :
  fetch A (request_of c) s = (Returned r, s') →
  (∀ a, r = Ok (Returned a) → run fetch c s = (Returned a, s'))
  ∧ (∀ fields d,
       r = NotOk (Returned (JObj fields)) →
       own_property "detail" fields = Some (JStr d) → d ≠ "" →
       run fetch c s = (Thrown (Error d), s'))
  ∧ (∀ fields,
       r = NotOk (Returned (JObj fields)) →
       own_property "detail" fields = None
       ∨ own_property "detail" fields = Some (JStr "") →
       run fetch c s = (Thrown (Error (fallback c)), s')).
Proof.
  intros Hf. rewrite (run_answered fetch c s s' r Hf). repeat split.
  - by intros a ->.
  - intros fields d -> Hd Hne. simpl. rewrite Hd. simpl.
    by rewrite bool_decide_eq_false_2.
  - intros fields -> [Hd|Hd]; simpl; by rewrite Hd.
Qed.

Lemma mutating_call_outcome_witness :
  failing (JObj [("detail", JStr "Email already exists")]) Lead.t
    (request_of (CreateLead (LeadForm.Make "Ada" "ada@example.com" ""))) ()
  = (Returned (NotOk (Returned (JObj [("detail", JStr "Email already exists")]))), ())
  ∧ run (failing (JObj [("detail", JStr "Email already exists")]))
      (CreateLead (LeadForm.Make "Ada" "ada@example.com" "")) ()
    = (Thrown (Error "Email already exists"), ()).
Proof.
  split; [reflexivity|].
  eapply (mutating_call_outcome (failing _) (CreateLead _) () ());
    [reflexivity | reflexivity | reflexivity | discriminate].
Defined.

(** C8 (as stated, refuted): the message is not the [detail] string for every
    body that has one. [createLead] answered with the body
    [{"detail": ""}] throws an Error with the fixed message
    "Failed to create lead", not with the empty [detail]. *)
Lemma empty_detail_not_reported :
  run (failing (JObj [("detail", JStr "")]))
    (CreateLead (LeadForm.Make "Ada" "ada@example.com" "")) ()
  = (Thrown (Error "Failed to create lead"), ())
  ∧ ¬ reports_every_detail.
Proof.
  split; [reflexivity|].
  intros H.
  specialize (H unit Lead.t (failing (JObj [("detail", JStr "")]))
                (CreateLead (LeadForm.Make "Ada" "ada@example.com" "")) () ()
                [("detail", JStr "")] "" eq_refl eq_refl).
  discriminate H.
Qed.

End ApiSpec.

(** * Properties of the Replies inbox *)
Module RepliesInboxSpec.
Import Js RepliesInbox.

(** ** Relations kept by the building blocks of the handlers *)
Section Keeps.
Context {S : Type} (fetch : ∀ A, Api.request A → M S (Api.response A)).
Context (R : component → component → Prop) `{!PreOrder R}.

Lemma keeps_ret {A} (a : A) : keeps R (mret a : M (@world S) A).
Proof. intros w. simpl. reflexivity. Qed.

Lemma keeps_throw {A} (e : exn) : keeps R (throw e : M (@world S) A).
Proof. intros w. simpl. reflexivity. Qed.

Lemma keeps_get : keeps R (get : M (@world S) (@world S)).
Proof. intros w. simpl. reflexivity. Qed.

Lemma keeps_bind {A B} (m : M (@world S) A) (k : A → M (@world S) B) :
  keeps R m → (∀ a, keeps R (k a)) → keeps R (m ≫= k).
Proof.
  intros Hm Hk w. specialize (Hm w). unfold mbind, M_bind, bind.
  destruct (m w) as [[a|e] w']; [|done].
  etrans; [exact Hm|]. apply Hk.
Qed.

Lemma keeps_try_catch {A} (body : M (@world S) A) (handler : exn → M (@world S) A) :
  keeps R body → (∀ e, keeps R (handler e)) → keeps R (try_catch body handler).
Proof.
  intros Hm Hk w. specialize (Hm w). unfold try_catch.
  destruct (body w) as [[a|e] w']; [done|].
  etrans; [exact Hm|]. apply Hk.
Qed.

Lemma keeps_finally {A} (body : M (@world S) A) (cleanup : M (@world S) unit) :
  keeps R body → keeps R cleanup → keeps R (finally body cleanup).
Proof.
  intros Hm Hk w. specialize (Hm w). specialize (Hk (body w).2). unfold finally.
  destruct (body w) as [r w']. simpl in *.
  destruct (cleanup w') as [[u|e] w'']; simpl in *; by etrans.
Qed.

Lemma keeps_api {A} (call : M S A) : keeps R (api call).
Proof. intros w. unfold api. destruct (call w.2). simpl. reflexivity. Qed.

Lemma keeps_set_component (f : component → component) :
  (∀ c, R c (f c)) → keeps R (set_component (S:=S) f).
Proof.
  intros Hf w. unfold set_component, modify. simpl.
  destruct (crashed w.1); [reflexivity | apply Hf].
Qed.

Lemma keeps_upload_all (files : list Api.file) : keeps R (upload_all fetch files).
Proof.
  induction files as [|f files IH]; simpl.
  - apply keeps_ret.
  - apply keeps_bind; [apply keeps_api|]. intros a.
    apply keeps_bind; [exact IH|]. intros l. apply keeps_ret.
Qed.

End Keeps.

Lemma finally_world {W A} (body : M W A) (cleanup : M W unit) (w : W) :
  (finally body cleanup w).2 = (cleanup (body w).2).2.
Proof.
  unfold finally. destruct (body w) as [r w']. simpl.
  by destruct (cleanup w') as [[u|e] w''].
Qed.

(** ** The entries of the other replies *)
Section Frame.
Context {S : Type} (fetch : ∀ A, Api.request A → M S (Api.response A)).
Context (replyId : Z).

Global Instance same_elsewhere_preorder : PreOrder (same_elsewhere replyId).
Proof.
  split.
  - by intros c other _.
  - intros c1 c2 c3 H12 H23 other Hne. by rewrite H23, H12.
Qed.

Lemma frame_setReplies (f : list Reply.t → list Reply.t) :
  keeps (same_elsewhere replyId) (setReplies (S:=S) f).
Proof. apply keeps_set_component; [apply _|]. by intros c other _. Qed.

Lemma frame_setLoading (b : bool) : keeps (same_elsewhere replyId) (setLoading (S:=S) b).
Proof. apply keeps_set_component; [apply _|]. by intros c other _. Qed.

Lemma frame_showMessage (type text : string) :
  keeps (same_elsewhere replyId) (showMessage (S:=S) type text).
Proof. apply keeps_set_component; [apply _|]. by intros c other _. Qed.

(** An updater that writes the entry of [replyId] only. *)
Lemma frame_setReplyStates
    (updater : gmap Z reply_state → outcome (gmap Z reply_state)) :
  (∀ prev states, updater prev = Returned states →
     ∀ other, other ≠ replyId → states !! other = prev !! other) →
  keeps (same_elsewhere replyId) (setReplyStates (S:=S) updater).
Proof.
  intros Hu. apply keeps_set_component; [apply _|]. intros c other Hne.
  destruct (updater (replyStates c)) as [states|e] eqn:E; simpl; [|done].
  by apply (Hu _ _ E).
Qed.

Lemma frame_update_entry (change : reply_state → reply_state) :
  keeps (same_elsewhere replyId) (update_entry (S:=S) replyId change).
Proof.
  apply frame_setReplyStates. intros prev states [= <-] other Hne.
  by rewrite lookup_insert_ne.
Qed.

Lemma frame_handleGenerateNextAction (force : bool) :
  keeps (same_elsewhere replyId) (handleGenerateNextAction fetch replyId force).
Proof.
  apply keeps_bind; [apply _ | apply frame_update_entry |]. intros _.
  apply keeps_finally; [apply _ | | apply frame_update_entry].
  apply keeps_try_catch; [apply _ | | intros e; apply frame_showMessage].
  apply keeps_bind; [apply _ | apply keeps_api, _ |]. intros action.
  apply keeps_bind; [apply _ | apply frame_setReplies |]. intros _.
  apply frame_showMessage.
Qed.

Lemma frame_handleGenerateDraft (force : bool) :
  keeps (same_elsewhere replyId) (handleGenerateDraft fetch replyId force).
Proof.
  apply keeps_bind; [apply _ | apply keeps_get, _ |]. intros w.
  apply keeps_bind; [apply _ | apply frame_update_entry |]. intros _.
  apply keeps_try_catch; [apply _ | |].
  - apply keeps_bind; [apply _ | apply keeps_api, _ |]. intros draft.
    apply keeps_bind; [apply _ | apply frame_update_entry |]. intros _.
    apply frame_showMessage.
  - intros e. apply keeps_bind; [apply _ | apply frame_showMessage |]. intros _.
    apply frame_update_entry.
Qed.

Lemma frame_handleFileSelect (files : list Api.file) :
  keeps (same_elsewhere replyId) (handleFileSelect fetch replyId files).
Proof.
  apply keeps_bind; [apply _ | apply frame_update_entry |]. intros _.
  apply keeps_try_catch; [apply _ | |].
  - apply keeps_bind; [apply _ | apply keeps_upload_all, _ |]. intros uploaded.
    apply keeps_bind; [apply _ | | intros _; apply frame_showMessage].
    apply frame_setReplyStates. intros prev states Hu other Hne.
    destruct (prev !! replyId); simplify_eq. by rewrite lookup_insert_ne.
  - intros e. apply keeps_bind; [apply _ | apply frame_showMessage |]. intros _.
    apply frame_update_entry.
Qed.

Lemma frame_handleRemoveAttachment (index : nat) :
  keeps (same_elsewhere replyId) (handleRemoveAttachment (S:=S) replyId index).
Proof.
  apply frame_setReplyStates. intros prev states Hu other Hne.
  destruct (prev !! replyId ≫= attachments); simplify_eq.
  by rewrite lookup_insert_ne.
Qed.

(** What [loadReplies] leaves in [replyStates]. *)
Lemma loadReplies_replyStates (c : component) (s : S) :
  replyStates (loadReplies fetch (c, s)).2.1
  = match Api.getInboundReplies fetch s, crashed c with
    | (Returned data, _), None => fresh_states data
    | _, _ => replyStates c
    end.
Proof.
  unfold loadReplies, finally, try_catch, mbind, M_bind, bind, api. simpl.
  destruct (Api.getInboundReplies fetch s) as [[data|e] s']; simpl;
    destruct (crashed c) eqn:E; simpl; rewrite ?E; simpl; rewrite ?E; done.
Qed.

(** The three ways [handleSendDraft] runs. *)
Lemma handleSendDraft_no_entry (c : component) (s : S) :
  replyStates c !! replyId = None →
  handleSendDraft fetch replyId (c, s)
  = (Thrown (TypeError undefined_read_message), (c, s)).
Proof.
  intros Hst. unfold handleSendDraft, mbind, M_bind, bind, get. cbn [fst snd].
  by rewrite Hst.
Qed.

Lemma handleSendDraft_refused (c : component) (s : S) (state : reply_state) :
  replyStates c !! replyId = Some state →
  falsy (draftSubject state) || falsy (draftBody state) = true →
  handleSendDraft fetch replyId (c, s)
  = showMessage "error" "Please generate a draft first" (c, s).
Proof.
  intros Hst Hf. unfold handleSendDraft, mbind, M_bind, bind, get. cbn [fst snd].
  by rewrite Hst, Hf.
Qed.

Lemma handleSendDraft_dispatched (c : component) (s : S) (state : reply_state) :
  replyStates c !! replyId = Some state →
  falsy (draftSubject state) || falsy (draftBody state) = false →
  handleSendDraft fetch replyId (c, s)
  = finally
      (try_catch
         (api (Api.sendDraftReply fetch replyId (send_data state));;
          showMessage "success" "Reply sent successfully!";;
          loadReplies fetch)
         (λ error, showMessage "error" (Js.message error)))
      (update_entry replyId (with_sending false))
      (update_entry replyId (with_sending true) (c, s)).2.
Proof.
  intros Hst Hf. unfold handleSendDraft.
  unfold mbind at 1, M_bind at 1, bind at 1, get. cbn [fst snd].
  by rewrite Hst, Hf.
Qed.

(** [handleSendDraft] on the entries of the other replies: they are kept,
    unless the send succeeded and the inbox was reloaded. *)
Lemma handleSendDraft_elsewhere (c : component) (s : S) (other : Z) :
  other ≠ replyId →
  replyStates (handleSendDraft fetch replyId (c, s)).2.1 !! other
    = replyStates c !! other
  ∨ ∃ state sent s1 data s2,
      replyStates c !! replyId = Some state
      ∧ Api.sendDraftReply fetch replyId (send_data state) s = (Returned sent, s1)
      ∧ Api.getInboundReplies fetch s1 = (Returned data, s2)
      ∧ replyStates (handleSendDraft fetch replyId (c, s)).2.1 !! other
        = fresh_states data !! other.
Proof.
  intros Hne.
  remember (replyStates (handleSendDraft fetch replyId (c, s)).2.1 !! other)
    as final eqn:Hfin.
  destruct (replyStates c !! replyId) as [state|] eqn:Hst;
    [|left; by rewrite Hfin, handleSendDraft_no_entry].
  destruct (falsy (draftSubject state) || falsy (draftBody state)) eqn:Hf.
  { left. rewrite Hfin, (handleSendDraft_refused c s state) by done.
    by apply (frame_showMessage "error" _ (c, s)). }
  rewrite (handleSendDraft_dispatched c s state) in Hfin by done.
  pose proof (frame_update_entry (with_sending true) (c, s)) as Hc1.
  destruct (update_entry replyId (with_sending true) (c, s)) as [r1 [c1 s']] eqn:E1.
  assert (s' = s) as ->.
  { unfold update_entry, setReplyStates, set_component, modify in E1. by simplify_eq. }
  cbn [fst snd] in *.
  rewrite finally_world in Hfin.
  rewrite (frame_update_entry (with_sending false) _ other Hne) in Hfin.
  unfold try_catch, mbind at 1, M_bind at 1, bind at 1, api in Hfin.
  cbn [fst snd] in Hfin.
  destruct (Api.sendDraftReply fetch replyId (send_data state) s)
    as [[sent|e] s1] eqn:Es.
  - unfold mbind, M_bind, bind in Hfin.
    pose proof (frame_showMessage "success" "Reply sent successfully!" (c1, s1)) as Hc2.
    destruct (showMessage "success" "Reply sent successfully!" (c1, s1))
      as [r2 [c2 s2']] eqn:E2.
    assert (s2' = s1) as ->.
    { unfold showMessage, setMessage, set_component, modify in E2. by simplify_eq. }
    assert (r2 = Returned ()) as ->.
    { unfold showMessage, setMessage, set_component, modify in E2. by simplify_eq. }
    cbn [fst snd] in *.
    assert (Hload : final = replyStates (loadReplies fetch (c2, s1)).2.1 !! other).
    { rewrite Hfin. pose proof (frame_showMessage "error") as Hm.
      destruct (loadReplies fetch (c2, s1)) as [[u|e] w']; [done|].
      by rewrite (Hm _ w' other Hne). }
    rewrite loadReplies_replyStates in Hload.
    destruct (Api.getInboundReplies fetch s1) as [[data|e] s2] eqn:Eg.
    + destruct (crashed c2).
      * left. by rewrite Hload, (Hc2 other Hne), (Hc1 other Hne).
      * right. by exists state, sent, s1, data, s2.
    + left. rewrite Hload, (Hc2 other Hne), (Hc1 other Hne).
      by destruct (crashed c2).
  - left. rewrite Hfin, (frame_showMessage "error" _ (c1, s1) other Hne).
    by apply Hc1.
Qed.

End Frame.

(** ** Exact runs of the handlers *)
Section Runs.
Context {S : Type} (fetch : ∀ A, Api.request A → M S (Api.response A)).
Context (replyId : Z).

Lemma update_entry_run (change : reply_state → reply_state) (c : component) (s : S) :
  crashed c = None →
  update_entry replyId change (c, s)
  = (Returned (),
     (Component (replies c) (loading c) (expandedReply c) (message c)
        (<[replyId := change (spread (replyStates c) replyId)]> (replyStates c)) None,
      s)).
Proof.
  intros Hc. unfold update_entry, setReplyStates, set_component, modify.
  cbn [fst snd]. by rewrite Hc.
Qed.

Lemma showMessage_run (type text : string) (c : component) (s : S) :
  crashed c = None →
  showMessage type text (c, s)
  = (Returned (),
     (Component (replies c) (loading c) (expandedReply c) (Some (type, text))
        (replyStates c) None, s)).
Proof.
  intros Hc. unfold showMessage, setMessage, set_component, modify.
  cbn [fst snd]. by rewrite Hc.
Qed.

(** A refused send: nothing but the banner changes, and no request is made. *)
Lemma handleSendDraft_refused_run (c : component) (s : S) (state : reply_state) :
  crashed c = None →
  replyStates c !! replyId = Some state →
  falsy (draftSubject state) || falsy (draftBody state) = true →
  handleSendDraft fetch replyId (c, s)
  = (Returned (),
     (Component (replies c) (loading c) (expandedReply c)
        (Some ("error", "Please generate a draft first")) (replyStates c) None, s)).
Proof.
  intros Hc Hst Hf.
  by rewrite (handleSendDraft_refused fetch replyId c s state), showMessage_run.
Qed.

(** A send that the API client reports as failed. *)
Lemma handleSendDraft_failed_run (c : component) (s s1 : S) (state : reply_state)
    (e : exn) :
  crashed c = None →
  replyStates c !! replyId = Some state →
  falsy (draftSubject state) || falsy (draftBody state) = false →
  Api.sendDraftReply fetch replyId (send_data state) s = (Thrown e, s1) →
  handleSendDraft fetch replyId (c, s)
  = (Returned (),
     (Component (replies c) (loading c) (expandedReply c)
        (Some ("error", Js.message e))
        (<[replyId := with_sending false state]> (replyStates c)) None, s1)).
Proof.
  intros Hc Hst Hf Hsend.
  rewrite (handleSendDraft_dispatched fetch replyId c s state) by done.
  rewrite update_entry_run by done. cbn [fst snd].
  unfold finally, try_catch, mbind, M_bind, bind, api. cbn [fst snd].
  rewrite Hsend. rewrite showMessage_run by done.
  rewrite update_entry_run by done. cbn [replyStates replies loading expandedReply message].
  unfold spread. rewrite lookup_insert_eq, insert_insert_eq, Hst. simpl.
  by destruct state.
Qed.

(** A draft generation that the API client reports as done. *)
Lemma handleGenerateDraft_done_run (force : bool) (c : component) (s s1 : S)
    (draft : Draft.t) :
  crashed c = None →
  Api.generateDraft fetch replyId (chosen_tone (replyStates c !! replyId)) force s
    = (Returned draft, s1) →
  handleGenerateDraft fetch replyId force (c, s)
  = (Returned (),
     (Component (replies c) (loading c) (expandedReply c)
        (Some ("success",
               if Draft.cached draft then "Draft loaded from cache"
               else "Draft generated!"))
        (<[replyId := with_generatingDraft false
                        (with_draftBody (Draft.body draft)
                           (with_draftSubject (Draft.subject draft)
                              (spread (replyStates c) replyId)))]> (replyStates c))
        None, s1)).
Proof.
  intros Hc Hgen. unfold handleGenerateDraft.
  unfold mbind at 1, M_bind at 1, bind at 1, get. cbn [fst snd].
  unfold mbind at 1, M_bind at 1, bind at 1.
  rewrite update_entry_run by done.
  unfold try_catch, mbind, M_bind, bind, api. cbn [fst snd].
  rewrite Hgen. rewrite update_entry_run by done.
  rewrite showMessage_run by done. cbn [replyStates replies loading expandedReply message].
  unfold spread. rewrite lookup_insert_eq, insert_insert_eq. simpl.
  by destruct (replyStates c !! replyId) as [[]|].
Qed.

Lemma setReplies_run (f : list Reply.t → list Reply.t) (c : component) (s : S) :
  crashed c = None →
  setReplies f (c, s)
  = (Returned (),
     (Component (f (replies c)) (loading c) (expandedReply c) (message c)
        (replyStates c) None, s)).
Proof.
  intros Hc. unfold setReplies, set_component, modify. cbn [fst snd]. by rewrite Hc.
Qed.

Lemma setLoading_run (b : bool) (c : component) (s : S) :
  crashed c = None →
  setLoading b (c, s)
  = (Returned (),
     (Component (replies c) b (expandedReply c) (message c) (replyStates c) None, s)).
Proof.
  intros Hc. unfold setLoading, set_component, modify. cbn [fst snd]. by rewrite Hc.
Qed.

Lemma setReplyStates_run (updater : gmap Z reply_state → outcome (gmap Z reply_state))
    (c : component) (s : S) :
  crashed c = None →
  setReplyStates updater (c, s)
  = (Returned (),
     (match updater (replyStates c) with
      | Returned states =>
          Component (replies c) (loading c) (expandedReply c) (message c) states None
      | Thrown e =>
          Component (replies c) (loading c) (expandedReply c) (message c)
            (replyStates c) (Some e)
      end, s)).
Proof.
  intros Hc. unfold setReplyStates, set_component, modify. cbn [fst snd].
  rewrite Hc. by destruct (updater (replyStates c)).
Qed.

(** What [loadReplies] does, by the outcome of [getInboundReplies]. *)
Lemma loadReplies_run (c : component) (s : S) :
  crashed c = None →
  loadReplies fetch (c, s)
  = (Returned (),
     (match (Api.getInboundReplies fetch s).1 with
      | Returned data =>
          Component data false (expandedReply c) (message c) (fresh_states data) None
      | Thrown e =>
          Component (replies c) false (expandedReply c) (Some ("error", Js.message e))
            (replyStates c) None
      end,
      (Api.getInboundReplies fetch s).2)).
Proof.
  intros Hc. unfold loadReplies, finally, try_catch, mbind, M_bind, bind, api.
  cbn [fst snd].
  destruct (Api.getInboundReplies fetch s) as [[data|e] s']; cbn [fst snd].
  - rewrite setReplies_run by done. rewrite setReplyStates_run by done.
    by rewrite setLoading_run.
  - rewrite showMessage_run by done. by rewrite setLoading_run.
Qed.

(** A send that the server accepts, followed by the reload. *)
Lemma handleSendDraft_sent_run (c : component) (s s1 : S) (state : reply_state)
    (sent : Api.sent) :
  crashed c = None →
  replyStates c !! replyId = Some state →
  falsy (draftSubject state) || falsy (draftBody state) = false →
  Api.sendDraftReply fetch replyId (send_data state) s = (Returned sent, s1) →
  handleSendDraft fetch replyId (c, s)
  = (Returned (),
     (match (Api.getInboundReplies fetch s1).1 with
      | Returned data =>
          Component data false (expandedReply c)
            (Some ("success", "Reply sent successfully!"))
            (<[replyId := with_sending false (spread (fresh_states data) replyId)]>
               (fresh_states data))
            None
      | Thrown e =>
          Component (replies c) false (expandedReply c) (Some ("error", Js.message e))
            (<[replyId := with_sending false state]> (replyStates c)) None
      end,
      (Api.getInboundReplies fetch s1).2)).
Proof.
  intros Hc Hst Hf Hsend.
  rewrite (handleSendDraft_dispatched fetch replyId c s state) by done.
  rewrite update_entry_run by done. cbn [fst snd].
  unfold finally, try_catch. unfold mbind at 1, M_bind at 1, bind at 1, api.
  cbn [fst snd]. rewrite Hsend.
  unfold mbind, M_bind, bind. rewrite showMessage_run by done.
  rewrite loadReplies_run by done.
  cbn [replyStates replies loading expandedReply message].
  destruct (Api.getInboundReplies fetch s1) as [[data|e] s2]; cbn [fst snd].
  - by rewrite update_entry_run.
  - rewrite update_entry_run by done.
    cbn [replyStates replies loading expandedReply message].
    unfold spread. rewrite lookup_insert_eq, insert_insert_eq, Hst. simpl.
    by destruct state.
Qed.

End Runs.

(** C9 (amended): a handler that acts on one reply (generate next action,
    generate draft, upload attachment, remove attachment, send) leaves the
    entry of every other reply in [replyStates] as it was, except that a send
    that succeeds reloads the inbox, after which the entries of the other
    replies are the ones rebuilt from the replies the server returned. *)
Theorem handlers_touch_one_entry {S : Type}
    (fetch : ∀ A, Api.request A → M S (Api.response A))
    (replyId : Z) (a : action) (c : component) (s : S) (other : Z) :
  other ≠ replyId →
  replyStates (handle fetch replyId a (c, s)).2.1 !! other = replyStates c !! other
  ∨ (a = SendDraft
     ∧ ∃ state sent s1 data s2,
         replyStates c !! replyId = Some state
         ∧ Api.sendDraftReply fetch replyId (send_data state) s = (Returned sent, s1)
         ∧ Api.getInboundReplies fetch s1 = (Returned data, s2)
         ∧ replyStates (handle fetch replyId a (c, s)).2.1 !! other
           = fresh_states data !! other).
Proof.
  intros Hne. destruct a as [force|force|files|index|]; simpl.
  - left. by apply (frame_handleGenerateNextAction fetch replyId force (c, s)).
  - left. by apply (frame_handleGenerateDraft fetch replyId force (c, s)).
  - left. by apply (frame_handleFileSelect fetch replyId files (c, s)).
  - left. by apply (frame_handleRemoveAttachment replyId index (c, s)).
  - destruct (handleSendDraft_elsewhere fetch replyId c s other Hne) as [H|H];
      [by left | by right].
Qed.

Lemma handlers_touch_one_entry_witness :
  (2 ≠ 1)
  ∧ replyStates
      (handle (canned []) 1 (GenerateDraft true) (sample_component, ())).2.1 !! 2
    = replyStates sample_component !! 2.
Proof.
  split; [done|].
  destruct (handlers_touch_one_entry (canned []) 1 (GenerateDraft true)
              sample_component () 2) as [H|[H _]]; [done | exact H | discriminate H].
Defined.

(** C9 (as stated, refuted): the send handler does not leave the other
    entries alone. With the draft of reply 2 edited to "My subject" and
    "My text" in the page, sending the draft of reply 1 reloads the inbox and
    puts the stored draft "Re: Offer" and "Hello" back into the entry of
    reply 2. *)
Lemma send_resets_other_entries :
  replyStates sample_component !! 2 = Some (editing "My subject" "My text")
  ∧ replyStates
      (handle (canned [stored 1 "Re: Hi" "Thanks"; stored 2 "Re: Offer" "Hello"])
         1 SendDraft (sample_component, ())).2.1 !! 2
    = Some (editing "Re: Offer" "Hello")
  ∧ ¬ touches_one_entry.
Proof.
  split; [reflexivity|]. split; [by vm_compute|].
  intros H.
  specialize (H unit (canned [stored 1 "Re: Hi" "Thanks"; stored 2 "Re: Offer" "Hello"])
                1 SendDraft (sample_component, ()) 2).
  assert (Hne : (2 : Z) ≠ 1) by done. specialize (H Hne).
  vm_compute in H. discriminate H.
Qed.

End RepliesInboxSpec.

(** * Properties of the reply workflow, against the model of the back end *)
Module WorkflowSpec.
Import Js RepliesInbox Backend.

Section Server.
Variable ext : collaborators.

Lemma parse_tone_name (t : tone) : parse_tone (tone_name t) = Some t.
Proof. by destruct t. Qed.


(** ** The API client in front of the back end *)

Lemma settle_respond {A} (fallback : string) (r : (error + A) * state) :
  Api.settle fallback (respond r.1) r.2 = client_view fallback r.
Proof.
  destruct r as [[e|a] s]; [|done]. unfold client_view. simpl.
  unfold Js.str_or. by case_decide; [rewrite bool_decide_eq_true_2|rewrite bool_decide_eq_false_2].
Qed.

Lemma api_generateDraft (replyId : Z) (tone_text : string) (force : bool) (s : state) :
  Api.generateDraft (serve ext) replyId tone_text force s
  = client_view "Failed to generate draft" (generateDraft ext replyId tone_text force s).
Proof. apply (settle_respond "Failed to generate draft"). Qed.

Lemma api_sendDraftReply (replyId : Z) (data : SendData.t) (s : state) :
  Api.sendDraftReply (serve ext) replyId data s
  = client_view "Failed to send draft" (sendDraftReply ext replyId data s).
Proof. apply (settle_respond "Failed to send draft"). Qed.

(** ** The draft generator *)

Lemma generateDraft_cached (replyId : Z) (t : tone) (s : state) (r : Reply.t)
    (subject body : string) :
  replies s !! replyId = Some r →
  stored_draft r = Some (t, subject, body) →
  generateDraft ext replyId (tone_name t) false s = (inr (Draft.Make subject body true), s).
Proof.
  intros Hr Hd. unfold generateDraft. rewrite parse_tone_name, Hr, Hd. simpl.
  by rewrite bool_decide_eq_true_2.
Qed.

Lemma generateDraft_composes (replyId : Z) (t : tone) (force : bool) (s : state)
    (r : Reply.t) :
  replies s !! replyId = Some r →
  force = true ∨ (∀ t' subject body, stored_draft r = Some (t', subject, body) → t' ≠ t) →
  generateDraft ext replyId (tone_name t) force s = compose_draft ext replyId t r s.
Proof.
  intros Hr Hwhy. unfold generateDraft. rewrite parse_tone_name, Hr.
  destruct (stored_draft r) as [[[t' subject] body]|] eqn:Hd; [|done].
  destruct Hwhy as [->|Hne]; [done|].
  rewrite bool_decide_eq_false_2 by by eapply Hne.
  by rewrite andb_false_r.
Qed.

Lemma compose_draft_log (replyId : Z) (t : tone) (r : Reply.t) (s : state) :
  provider_log (compose_draft ext replyId t r s).2
  = (provider_log s ++ [DraftCall replyId t])%list.
Proof.
  unfold compose_draft.
  by destruct (compose ext r t (length (provider_log s))) as [[subject body]|].
Qed.

(** ** Reply ingestion *)

Lemma with_checkpoint_same (s : state) : with_checkpoint (checkpoint s) s = s.
Proof. by destruct s. Qed.

Lemma find_outbound_Some (token : string) (s : state) (o : Outbound.t) :
  find_outbound token s = Some o →
  Outbound.message_id o = token ∧ ∃ k, outbound s !! k = Some o.
Proof.
  unfold find_outbound, listOutbound. intros [Hin Htoken]%find_some.
  split; [by apply bool_decide_eq_true in Htoken|].
  apply list_elem_of_In, list_elem_of_fmap in Hin as ([k o'] & -> & Hin).
  exists k. by apply elem_of_map_to_list in Hin.
Qed.

Lemma find_outbound_is_Some (token : string) (s : state) (k : Z) (o : Outbound.t) :
  outbound s !! k = Some o → Outbound.message_id o = token →
  is_Some (find_outbound token s).
Proof.
  intros Hk Htoken. unfold find_outbound.
  destruct (find _ _) as [o'|] eqn:Hfind; [by eexists|].
  exfalso. eapply find_none in Hfind.
  - by rewrite bool_decide_eq_true_2 in Hfind.
  - apply list_elem_of_In. unfold listOutbound. apply list_elem_of_fmap.
    exists (k, o). split; [done|]. by apply elem_of_map_to_list.
Qed.

Lemma has_reply_true (emailId : Z) (s : state) :
  has_reply emailId s = true
  ↔ ∃ i r, replies s !! i = Some r ∧ Reply.outbound_email_id r = emailId.
Proof.
  unfold has_reply, listReplies. rewrite existsb_exists. split.
  - intros (r & Hin & Heq). apply Z.eqb_eq in Heq.
    apply list_elem_of_In, list_elem_of_fmap in Hin as ([i r'] & -> & Hin).
    exists i, r'. split; [|done]. by apply elem_of_map_to_list in Hin.
  - intros (i & r & Hi & Heq). exists r. split; [|by apply Z.eqb_eq].
    apply list_elem_of_In, list_elem_of_fmap. exists (i, r).
    split; [done|]. by apply elem_of_map_to_list.
Qed.

Lemma has_reply_false (emailId : Z) (s : state) (i : Z) (r : Reply.t) :
  has_reply emailId s = false → replies s !! i = Some r →
  Reply.outbound_email_id r ≠ emailId.
Proof.
  intros Hno Hi Heq.
  assert (has_reply emailId s = true) as Hyes by (apply has_reply_true; eauto).
  congruence.
Qed.

(** A message is either skipped, or ingested as a new reply. *)
Lemma ingest_cases (m : mail) (s : state) :
  ingest ext m s = (false, s)
  ∨ ∃ token o lead,
      in_reply_to m = Some token
      ∧ find_outbound token s = Some o
      ∧ has_reply (Outbound.id o) s = false
      ∧ leads s !! Outbound.lead_id o = Some lead
      ∧ ingest ext m s
        = (true,
           with_next_id (next_id s + 1)
             (with_replies
                (<[next_id s := new_reply (next_id s) m (classify ext m lead o) lead o]>
                   (replies s))
                (with_outbound
                   (<[Outbound.id o := mark_replied (classify ext m lead o) o]> (outbound s))
                   (with_leads
                      (<[Outbound.lead_id o :=
                           lead_replied (classify ext m lead o) (received m) lead]>
                         (leads s)) s)))).
Proof.
  unfold ingest.
  destruct (in_reply_to m) as [token|] eqn:Hm; simpl; [|by left].
  destruct (find_outbound token s) as [o|] eqn:Ho; [|by left].
  destruct (has_reply (Outbound.id o) s) eqn:Hr; [by left|].
  destruct (leads s !! Outbound.lead_id o) as [lead|] eqn:Hl; [|by left].
  right. by exists token, o, lead.
Qed.

(** ** Operations that rewrite a stored reply *)

Lemma rewrites_refl (s : state) : rewrites s s.
Proof. repeat split. by left. Qed.

Lemma rewrites_logs (s : state) (p : list provider_call) (l : list (dispatch * bool)) :
  rewrites s (with_transport_log l (with_provider_log p s)).
Proof. repeat split. by left. Qed.

(** One stored reply is replaced by another version of itself. *)
Lemma rewrites_insert (s s' : state) (k : Z) (r r' : Reply.t) :
  next_id s' = next_id s → outbound s' = outbound s →
  replies s !! k = Some r →
  replies s' = <[k := r']> (replies s) →
  Reply.outbound_email_id r' = Reply.outbound_email_id r →
  rewrites s s'.
Proof.
  intros Hn Ho Hk Hr Hemail. repeat split; [done..|]. intros i. rewrite Hr.
  destruct (decide (i = k)) as [->|Hne].
  - right. exists r, r'. by rewrite lookup_insert_eq.
  - left. by rewrite lookup_insert_ne.
Qed.

Lemma generateNextAction_rewrites (replyId : Z) (force : bool) (s : state) :
  rewrites s (generateNextAction ext replyId force s).2.
Proof.
  unfold generateNextAction.
  destruct (replies s !! replyId) as [r|] eqn:Hr; [|apply rewrites_refl].
  destruct (negb force && _); [apply rewrites_refl|].
  destruct (suggest ext r (length (provider_log s))) as [a|]; simpl.
  - by eapply (rewrites_insert _ _ replyId r (with_action a r)).
  - repeat split. by left.
Qed.

Lemma compose_draft_rewrites (replyId : Z) (t : tone) (r : Reply.t) (s : state) :
  replies s !! replyId = Some r →
  rewrites s (compose_draft ext replyId t r s).2.
Proof.
  intros Hr. unfold compose_draft.
  destruct (compose ext r t (length (provider_log s))) as [[subject body]|]; simpl.
  - by eapply (rewrites_insert _ _ replyId r (with_draft t subject body r)).
  - repeat split. by left.
Qed.

Lemma generateDraft_rewrites (replyId : Z) (tone_text : string) (force : bool) (s : state) :
  rewrites s (generateDraft ext replyId tone_text force s).2.
Proof.
  unfold generateDraft.
  destruct (parse_tone tone_text) as [t|]; [|apply rewrites_refl].
  destruct (replies s !! replyId) as [r|] eqn:Hr; [|apply rewrites_refl].
  destruct (stored_draft r) as [[[t' subject] body]|];
    [destruct (negb force && _); [apply rewrites_refl|]|];
    by apply compose_draft_rewrites.
Qed.

Lemma sendDraftReply_rewrites (replyId : Z) (data : SendData.t) (s : state) :
  rewrites s (sendDraftReply ext replyId data s).2.
Proof.
  unfold sendDraftReply.
  destruct (_ || _); [apply rewrites_refl|].
  destruct (replies s !! replyId) as [r|] eqn:Hr; [|apply rewrites_refl].
  destruct (outbound s !! Reply.outbound_email_id r) as [o|]; [|apply rewrites_refl].
  destruct (transport ext _ _); simpl.
  - by eapply (rewrites_insert _ _ replyId r (with_draft_status SENT r)).
  - repeat split. by left.
Qed.

Lemma rewrites_consistent (s s' : state) :
  rewrites s s' → consistent ext s → consistent ext s'.
Proof.
  intros (Hn & Ho & Hrows) [Hfresh Hofresh Hkeys Htokens Hone].
  assert (Hold : ∀ i r', replies s' !! i = Some r' →
            ∃ r, replies s !! i = Some r
                 ∧ Reply.outbound_email_id r' = Reply.outbound_email_id r).
  { intros i r' Hi. destruct (Hrows i) as [Heq | (r & r1 & Hr & Hr' & He)].
    - exists r'. by rewrite <- Heq.
    - exists r. split; [done|]. congruence. }
  split; rewrite ?Hn, ?Ho; try done.
  - intros i r' (r & Hr & _)%Hold. by eapply Hfresh.
  - intros i j ri rj (ri0 & Hi & Hei)%Hold (rj0 & Hj & Hej)%Hold Heq.
    eapply Hone; [done..|]. congruence.
Qed.

(** ** What the steps of the back end keep *)

Lemma ingest_consistent (m : mail) (s : state) :
  consistent ext s → consistent ext (ingest ext m s).2.
Proof.
  intros Hs.
  destruct (ingest_cases m s) as [-> | (token & o & lead & _ & Ho & Hno & _ & ->)];
    [done|].
  destruct Hs as [Hfresh Hofresh Hkeys Htokens Hone].
  apply find_outbound_Some in Ho as [_ [k Hk]].
  assert (Outbound.id o = k) as Hid by by apply Hkeys.
  split; simpl.
  - intros i r [[-> _] | [_ Hi]]%lookup_insert_Some; [lia|].
    apply Hfresh in Hi. lia.
  - intros i o' [[<- _] | [_ Hi]]%lookup_insert_Some.
    + rewrite Hid. apply Hofresh in Hk. lia.
    + apply Hofresh in Hi. lia.
  - intros i o' [[<- <-] | [_ Hi]]%lookup_insert_Some; [done | by apply Hkeys].
  - intros i o' [[<- <-] | [_ Hi]]%lookup_insert_Some; [|by apply Htokens].
    simpl. rewrite Hid. by apply Htokens.
  - intros i j ri rj [[<- <-] | [Hi Hri]]%lookup_insert_Some
                     [[<- <-] | [Hj Hrj]]%lookup_insert_Some; simpl; try done.
    + intros Heq. by destruct (has_reply_false _ _ _ _ Hno Hrj).
    + intros Heq. by destruct (has_reply_false _ _ _ _ Hno Hri).
    + by apply Hone.
Qed.

Lemma ingest_status (m : mail) (s : state) (replyId : Z) :
  consistent ext s →
  status_of replyId (ingest ext m s).2 = status_of replyId s.
Proof.
  intros Hs.
  destruct (ingest_cases m s) as [-> | (token & o & lead & _ & _ & _ & _ & ->)];
    [done|].
  unfold status_of. simpl.
  destruct (decide (replyId = next_id s)) as [->|Hne].
  - rewrite lookup_insert_eq. simpl.
    destruct (replies s !! next_id s) as [r|] eqn:Hr; [|done].
    apply (reply_ids_fresh ext s Hs) in Hr. lia.
  - by rewrite lookup_insert_ne.
Qed.

Lemma ingest_mailbox (m : mail) (s : state) :
  mailbox (ingest ext m s).2 = mailbox s ∧ checkpoint (ingest ext m s).2 = checkpoint s.
Proof.
  by destruct (ingest_cases m s) as [-> | (token & o & lead & _ & _ & _ & _ & ->)].
Qed.

(** The fold of [ingest_all], one message at a time. *)
Lemma ingest_all_snoc (ms : list mail) (m : mail) (s : state) :
  ingest_all ext (ms ++ [m]) s
  = ((if (ingest ext m (ingest_all ext ms s).2).1
      then (ingest_all ext ms s).1 + 1 else (ingest_all ext ms s).1),
     (ingest ext m (ingest_all ext ms s).2).2).
Proof.
  unfold ingest_all. rewrite foldl_snoc.
  by destruct (ingest ext m _).
Qed.

Lemma ingest_all_keeps (ms : list mail) (s : state) :
  consistent ext s →
  consistent ext (ingest_all ext ms s).2
  ∧ mailbox (ingest_all ext ms s).2 = mailbox s
  ∧ checkpoint (ingest_all ext ms s).2 = checkpoint s
  ∧ ∀ replyId, status_of replyId (ingest_all ext ms s).2 = status_of replyId s.
Proof.
  intros Hs. induction ms as [|m ms IH] using rev_ind; [done|].
  destruct IH as (Hc & Hm & Hcp & Hst). rewrite ingest_all_snoc. cbn [snd].
  destruct (ingest_mailbox m (ingest_all ext ms s).2) as [Hm' Hcp'].
  split; [by apply ingest_consistent|].
  split; [congruence|]. split; [congruence|].
  intros replyId. by rewrite ingest_status, Hst.
Qed.

Lemma syncReplies_state (s : state) :
  (syncReplies ext s).2
  = with_checkpoint (foldl Z.max (checkpoint s) (uid <$> unseen s))
      (ingest_all ext (unseen s) s).2.
Proof. unfold syncReplies. by destruct (ingest_all ext (unseen s) s). Qed.

Lemma syncReplies_consistent (s : state) :
  consistent ext s → consistent ext (syncReplies ext s).2.
Proof.
  intros Hs. rewrite syncReplies_state.
  destruct (ingest_all_keeps (unseen s) s Hs) as ([] & _). by split.
Qed.


Lemma createLead_keeps (form : Api.LeadForm.t) (s : state) :
  consistent ext s →
  consistent ext (createLead ext form s).2
  ∧ replies (createLead ext form s).2 = replies s.
Proof.
  intros [Hfresh Hofresh Hkeys Htokens Hone]. unfold createLead.
  destruct (_ || _); [done|]. split; [|done]. split; simpl; try done.
  - intros i r Hi. apply Hfresh in Hi. lia.
  - intros i o Hi. apply Hofresh in Hi. lia.
Qed.

Lemma recordSend_keeps (form : Api.EmailForm.t) (s : state) :
  consistent ext s →
  consistent ext (recordSend ext form s).2
  ∧ replies (recordSend ext form s).2 = replies s.
Proof.
  intros [Hfresh Hofresh Hkeys Htokens Hone]. unfold recordSend.
  destruct (leads s !! Api.EmailForm.lead_id form) as [lead|]; [|done].
  destruct (transport ext _ _); [|done].
  split; [|done]. split; simpl; try done.
  - intros i r Hi. apply Hfresh in Hi. lia.
  - intros i o [[<- _] | [_ Hi]]%lookup_insert_Some; [lia|].
    apply Hofresh in Hi. lia.
  - intros i o [[<- <-] | [_ Hi]]%lookup_insert_Some; [done | by apply Hkeys].
  - intros i o [[<- <-] | [_ Hi]]%lookup_insert_Some; [done | by apply Htokens].
Qed.


(** Every step keeps the records consistent. *)
Lemma step_consistent (op : operation) (s : state) :
  consistent ext s → consistent ext (step ext op s).
Proof.
  intros Hs. destruct op as [form|form| |replyId force|replyId tone_text force|f
                            |replyId data|m]; simpl.
  - by apply createLead_keeps.
  - by apply recordSend_keeps.
  - by apply syncReplies_consistent.
  - eapply rewrites_consistent; [apply generateNextAction_rewrites | done].
  - eapply rewrites_consistent; [apply generateDraft_rewrites | done].
  - unfold uploadAttachment. by destruct (storage ext f).
  - eapply rewrites_consistent; [apply sendDraftReply_rewrites | done].
  - by destruct Hs.
Qed.

Lemma run_consistent (ops : list operation) (s : state) :
  consistent ext s → consistent ext (run ext ops s).
Proof.
  revert s. induction ops as [|op ops IH]; intros s Hs; [done|].
  simpl. by apply IH, step_consistent.
Qed.

Lemma empty_consistent : consistent ext empty.
Proof. by split. Qed.

(** ** The draft lifecycle *)









Lemma foldl_max_ge (l : list Z) (x : Z) :
  x ≤ foldl Z.max x l ∧ ∀ y, y ∈ l → y ≤ foldl Z.max x l.
Proof.
  revert x. induction l as [|z l IH]; intros x; simpl.
  - split; [lia|]. by intros y ?%elem_of_nil.
  - destruct (IH (Z.max x z)) as [Hx Hl]. split; [lia|].
    intros y [->|Hy]%elem_of_cons; [lia | by apply Hl].
Qed.

Lemma filter_none {A} (f : A → bool) (l : list A) :
  (∀ x, x ∈ l → f x = false) → List.filter f l = [].
Proof.
  induction l as [|x l IH]; intros Hf; simpl; [done|].
  rewrite (Hf x) by by left. apply IH. intros y Hy. apply Hf. by right.
Qed.

(** After a sync, no message of the mailbox is unseen. *)
Lemma syncReplies_unseen (s : state) :
  consistent ext s → unseen (syncReplies ext s).2 = [].
Proof.
  intros Hs. rewrite syncReplies_state.
  destruct (ingest_all_keeps (unseen s) s Hs) as (_ & Hm & _ & _).
  unfold unseen at 1. simpl. rewrite Hm.
  apply filter_none. intros m Hin. apply Z.ltb_ge.
  destruct (foldl_max_ge (uid <$> unseen s) (checkpoint s)) as [Hcp Hl].
  destruct (Z.ltb_spec (checkpoint s) (uid m)) as [Hlt|Hge]; [|lia].
  apply Hl, list_elem_of_fmap. exists m. split; [done|].
  unfold unseen. apply list_elem_of_In, filter_In. split.
  - by apply list_elem_of_In.
  - by apply Z.ltb_lt.
Qed.

Lemma syncReplies_nothing_new (s : state) :
  unseen s = [] →
  syncReplies ext s = (inr (Api.Synced (Some "Sync complete") 0), s).
Proof.
  intros Hu. unfold syncReplies. rewrite Hu. simpl. by rewrite with_checkpoint_same.
Qed.

(** C5: a sync that finds no new message in the mailbox reports
    [replies_found = 0] and leaves the back end as it was, and so does every
    sync that follows another one without new mail in between; no outbound
    email ever has two inbound replies; a message for an outbound email that
    already has an inbound reply is skipped without any change; and a message
    that was ingested moved its lead to REPLIED and its outbound email to
    [is_replied = true], after which ingesting the same message again changes
    nothing. *)
Theorem syncReplies_idempotent (s : state) :
  Inj (=) (=) (fresh_token ext) →
  consistent ext s →
  (unseen s = [] →
     syncReplies ext s = (inr (Api.Synced (Some "Sync complete") 0), s))
  ∧ syncReplies ext (syncReplies ext s).2
    = (inr (Api.Synced (Some "Sync complete") 0), (syncReplies ext s).2)
  ∧ (∀ i j ri rj,
       replies (syncReplies ext s).2 !! i = Some ri →
       replies (syncReplies ext s).2 !! j = Some rj →
       Reply.outbound_email_id ri = Reply.outbound_email_id rj → i = j)
  ∧ (∀ m token o,
       in_reply_to m = Some token →
       find_outbound token s = Some o →
       has_reply (Outbound.id o) s = true →
       ingest ext m s = (false, s))
  ∧ (∀ m s',
       ingest ext m s = (true, s') →
       ingest ext m s' = (false, s')
       ∧ ∃ o lead,
           in_reply_to m = Some (Outbound.message_id o)
           ∧ outbound s' !! Outbound.id o = Some o
           ∧ Outbound.is_replied o = true
           ∧ leads s' !! Outbound.lead_id o = Some lead
           ∧ Lead.status lead = "REPLIED").
Proof.
  intros Hinj Hs. split; [apply syncReplies_nothing_new|].
  split; [apply syncReplies_nothing_new, syncReplies_unseen, Hs|].
  split; [apply (one_reply_per_email ext _ (syncReplies_consistent s Hs))|].
  split.
  - intros m token o Hm Ho Hr. unfold ingest. rewrite Hm. simpl. by rewrite Ho, Hr.
  - intros m s' Hingest.
    pose proof (ingest_consistent m s Hs) as Hs'.
    destruct (ingest_cases m s) as [Hskip | (token & o & lead & Hm & Ho & Hno & Hl & Hrun)];
      [congruence|].
    rewrite Hrun in Hs'. rewrite Hrun in Hingest. injection Hingest as <-.
    cbn [snd] in Hs'.
    destruct (find_outbound_Some _ _ _ Ho) as [Htoken [k Hk]].
    assert (Outbound.id o = k) as Hid by by apply (outbound_keys ext s Hs).
    set (c := classify ext m lead o) in *.
    set (s' := with_next_id _ _) in *.
    assert (Ho' : outbound s' !! Outbound.id o = Some (mark_replied c o))
      by apply lookup_insert_eq.
    split.
    + destruct (find_outbound_is_Some token s' _ _ Ho' Htoken) as [o2 Ho2].
      destruct (find_outbound_Some _ _ _ Ho2) as [Htoken2 [k2 Hk2]].
      assert (Outbound.id o2 = Outbound.id o) as Hid2.
      { rewrite (outbound_keys ext s' Hs' _ _ Hk2). apply Hinj.
        rewrite <- (outbound_tokens ext s' Hs' _ _ Hk2), Htoken2, <- Htoken.
        rewrite Hid. by apply (outbound_tokens ext s Hs). }
      assert (has_reply (Outbound.id o2) s' = true) as Hhas.
      { apply has_reply_true. exists (next_id s), (new_reply (next_id s) m c lead o).
        split; [apply lookup_insert_eq | by rewrite Hid2]. }
      unfold ingest. rewrite Hm. simpl. by rewrite Ho2, Hhas.
    + exists (mark_replied c o), (lead_replied c (received m) lead).
      split; [by rewrite Hm, <- Htoken|]. split; [done|]. split; [done|].
      split; [apply lookup_insert_eq | done].
Qed.

(** ** The send-draft pipeline *)

Lemma sendDraftReply_empty (replyId : Z) (data : SendData.t) (s : state) :
  SendData.edited_subject data = "" ∨ SendData.edited_body data = "" →
  sendDraftReply ext replyId data s
  = (inl (ValidationError "Subject and body are required"), s).
Proof.
  intros Hempty. unfold sendDraftReply.
  destruct Hempty as [-> | ->]; simpl; [done|].
  by rewrite orb_true_r.
Qed.

(** A send that fails, for whatever reason, leaves every stored reply as it
    was. *)
Lemma sendDraftReply_failure (replyId : Z) (data : SendData.t) (s s' : state) (e : error) :
  sendDraftReply ext replyId data s = (inl e, s') → replies s' = replies s.
Proof.
  unfold sendDraftReply. intros H.
  repeat (case_match; simplify_eq; try done).
Qed.

(** The draft text of a stored reply. *)
Lemma sendDraftReply_keeps_text (replyId : Z) (data : SendData.t) (s : state) (i : Z) :
  (λ r, (Reply.draft_subject r, Reply.draft_body r, Reply.draft_tone r))
    <$> replies (sendDraftReply ext replyId data s).2 !! i
  = (λ r, (Reply.draft_subject r, Reply.draft_body r, Reply.draft_tone r))
      <$> replies s !! i.
Proof.
  unfold sendDraftReply.
  repeat (case_match; simplify_eq; try done). simpl.
  destruct (decide (i = replyId)) as [->|Hne].
  - rewrite lookup_insert_eq. by rewrite H0.
  - by rewrite lookup_insert_ne.
Qed.

(** C6: [sendDraftReply] with an empty subject or an empty body fails with a
    ValidationError, which the API client throws as an Error, and leaves the
    back end, and so every draft status, as it was; in the page the send
    handler of a reply whose draft subject or body is empty (or missing)
    makes no request at all, whatever the server: it only shows the error
    banner "Please generate a draft first". *)
Theorem empty_draft_is_not_sent :
  (∀ (replyId : Z) (data : SendData.t) (s : state),
     SendData.edited_subject data = "" ∨ SendData.edited_body data = "" →
     sendDraftReply ext replyId data s
       = (inl (ValidationError "Subject and body are required"), s)
     ∧ Api.sendDraftReply (serve ext) replyId data s
       = (Thrown (Error "Subject and body are required"), s))
  ∧ (∀ (S : Type) (fetch : ∀ A, Api.request A → M S (Api.response A))
       (replyId : Z) (c : component) (s : S) (state : reply_state),
     crashed c = None →
     replyStates c !! replyId = Some state →
     falsy (draftSubject state) = true ∨ falsy (draftBody state) = true →
     handleSendDraft fetch replyId (c, s)
     = (Returned (),
        (Component (RepliesInbox.replies c) (loading c) (expandedReply c)
           (Some ("error", "Please generate a draft first")) (replyStates c) None, s))).
Proof.
  split.
  - intros replyId data s Hempty.
    rewrite api_sendDraftReply, (sendDraftReply_empty replyId data s Hempty). done.
  - intros S fetch replyId c s state Hc Hst Hempty.
    apply (RepliesInboxSpec.handleSendDraft_refused_run fetch replyId c s state);
      [done..|].
    destruct Hempty as [-> | ->]; [done | apply orb_true_r].
Qed.

(** C7: when the API client reports a failed send, the send handler shows the
    error and puts [sending] back to false in the entry of the reply; the
    draft subject, the draft body and the attachments of the entry are the
    ones from before the attempt, and no other entry changes. When the
    transport rejects the message, the back end answers with a SendError,
    which the client throws as an Error, and every stored reply, its draft
    status included, is as before. *)
Theorem failed_send_keeps_draft :
  (∀ (S : Type) (fetch : ∀ A, Api.request A → M S (Api.response A))
     (replyId : Z) (c : component) (s s1 : S) (state : reply_state) (e : exn),
     crashed c = None →
     replyStates c !! replyId = Some state →
     falsy (draftSubject state) || falsy (draftBody state) = false →
     Api.sendDraftReply fetch replyId (send_data state) s = (Thrown e, s1) →
     handleSendDraft fetch replyId (c, s)
     = (Returned (),
        (Component (RepliesInbox.replies c) (loading c) (expandedReply c)
           (Some ("error", Js.message e))
           (<[replyId := with_sending false state]> (replyStates c)) None, s1))
     ∧ draftSubject (with_sending false state) = draftSubject state
     ∧ draftBody (with_sending false state) = draftBody state
     ∧ RepliesInbox.attachments (with_sending false state)
       = RepliesInbox.attachments state)
  ∧ (∀ (replyId : Z) (data : SendData.t) (s : state) (r : Reply.t) (o : Outbound.t),
     replies s !! replyId = Some r →
     outbound s !! Reply.outbound_email_id r = Some o →
     SendData.edited_subject data ≠ "" →
     SendData.edited_body data ≠ "" →
     transport ext
       (Dispatch (Outbound.message_id o) (SendData.edited_subject data)
          (SendData.edited_body data) (default [] (SendData.attachments data)))
       (length (transport_log s)) = false →
     (sendDraftReply ext replyId data s).1 = inl (TransportError "Failed to send reply")
     ∧ (Api.sendDraftReply (serve ext) replyId data s).1
       = Thrown (Error "Failed to send reply")
     ∧ replies (Api.sendDraftReply (serve ext) replyId data s).2 = replies s
     ∧ status_of replyId (Api.sendDraftReply (serve ext) replyId data s).2
       = status_of replyId s).
Proof.
  split.
  - intros S fetch replyId c s s1 state e Hc Hst Hf Hsend.
    split; [|done].
    by apply RepliesInboxSpec.handleSendDraft_failed_run.
  - intros replyId data s r o Hr Ho Hsubject Hbody Hreject.
    assert (Hrun : sendDraftReply ext replyId data s
                   = (inl (TransportError "Failed to send reply"),
                      with_transport_log
                        (transport_log s ++
                           [(Dispatch (Outbound.message_id o) (SendData.edited_subject data)
                               (SendData.edited_body data)
                               (default [] (SendData.attachments data)), false)]) s)).
    { unfold sendDraftReply.
      rewrite !bool_decide_eq_false_2 by done. simpl.
      by rewrite Hr, Ho, Hreject. }
    rewrite api_sendDraftReply, Hrun. unfold client_view, status_of. done.
Qed.

(** C3: an edit of the draft subject or body is written into the entry of
    the reply in the page, where it replaces the former text and changes no
    other field, and makes no request, so the server does not see it. The
    send that follows posts the edited subject and body, with the attachments
    of the entry, and nothing else of the draft: the handler ends as the
    outcome of that one request (and of the reload after an accepted send)
    determines. A draft generation that follows the edits sends the same
    request as without them and, when it returns a draft, puts the subject
    and the body of that draft into the edit fields in place of the edited
    text. Sending a draft, edited or not, leaves the stored draft subject,
    body and tone of every reply as generated. *)
Theorem edits_stay_in_the_page :
  (∀ (S : Type) (replyId : Z) (value : string) (c : component) (s : S),
     (changeSubject replyId value (c, s)).2.2 = s
     ∧ (changeBody replyId value (c, s)).2.2 = s)
  ∧ (∀ (S : Type) (replyId : Z) (value : string) (c : component) (s : S)
       (state : reply_state),
     crashed c = None →
     replyStates c !! replyId = Some state →
     changeSubject replyId value (c, s)
     = (Returned (),
        (Component (RepliesInbox.replies c) (loading c) (expandedReply c) (message c)
           (<[replyId := ReplyState (generatingAction state) (generatingDraft state)
                           (sending state) (selectedTone state)
                           (Some value) (draftBody state)
                           (RepliesInbox.attachments state) (uploadingFile state)]>
              (replyStates c))
           None, s))
     ∧ changeBody replyId value (c, s)
       = (Returned (),
          (Component (RepliesInbox.replies c) (loading c) (expandedReply c) (message c)
             (<[replyId := ReplyState (generatingAction state) (generatingDraft state)
                             (sending state) (selectedTone state)
                             (draftSubject state) (Some value)
                             (RepliesInbox.attachments state) (uploadingFile state)]>
                (replyStates c))
             None, s)))
  ∧ (∀ (S : Type) (fetch : ∀ A, Api.request A → M S (Api.response A))
       (replyId : Z) (c : component) (s : S) (state : reply_state)
       (subject body : string),
     crashed c = None →
     replyStates c !! replyId = Some state →
     subject ≠ "" → body ≠ "" →
     handleSendDraft fetch replyId
       (changeBody replyId body (changeSubject replyId subject (c, s)).2).2
     = (Returned (),
        match Api.sendDraftReply fetch replyId
                (SendData.Make subject body (RepliesInbox.attachments state)) s with
        | (Thrown e, s1) =>
            (Component (RepliesInbox.replies c) (loading c) (expandedReply c)
               (Some ("error", Js.message e))
               (<[replyId := ReplyState (generatingAction state) (generatingDraft state)
                               (Some false) (selectedTone state)
                               (Some subject) (Some body)
                               (RepliesInbox.attachments state) (uploadingFile state)]>
                  (replyStates c))
               None, s1)
        | (Returned _, s1) =>
            (match (Api.getInboundReplies fetch s1).1 with
             | Returned data =>
                 Component data false (expandedReply c)
                   (Some ("success", "Reply sent successfully!"))
                   (<[replyId := with_sending false (spread (fresh_states data) replyId)]>
                      (fresh_states data))
                   None
             | Thrown e =>
                 Component (RepliesInbox.replies c) false (expandedReply c)
                   (Some ("error", Js.message e))
                   (<[replyId := ReplyState (generatingAction state) (generatingDraft state)
                                   (Some false) (selectedTone state)
                                   (Some subject) (Some body)
                                   (RepliesInbox.attachments state) (uploadingFile state)]>
                      (replyStates c))
                   None
             end,
             (Api.getInboundReplies fetch s1).2)
        end))
  ∧ (∀ (S : Type) (fetch : ∀ A, Api.request A → M S (Api.response A))
       (replyId : Z) (force : bool) (c : component) (s s1 : S)
       (subject body : string) (draft : Draft.t),
     crashed c = None →
     Api.generateDraft fetch replyId (chosen_tone (replyStates c !! replyId)) force s
       = (Returned draft, s1) →
     ∃ entry,
       replyStates
         (handleGenerateDraft fetch replyId force
            (changeBody replyId body (changeSubject replyId subject (c, s)).2).2).2.1
         !! replyId = Some entry
       ∧ draftSubject entry = Some (Draft.subject draft)
       ∧ draftBody entry = Some (Draft.body draft)
       ∧ (handleGenerateDraft fetch replyId force
            (changeBody replyId body (changeSubject replyId subject (c, s)).2).2).2.2
         = s1)
  ∧ (∀ (replyId : Z) (data : SendData.t) (s : state) (i : Z),
     (λ r, (Reply.draft_subject r, Reply.draft_body r, Reply.draft_tone r))
       <$> replies (sendDraftReply ext replyId data s).2 !! i
     = (λ r, (Reply.draft_subject r, Reply.draft_body r, Reply.draft_tone r))
         <$> replies s !! i).
Proof.
  split; [|split; [|split; [|split]]].
  - intros S replyId value c s.
    unfold changeSubject, changeBody, update_entry, setReplyStates, set_component, modify.
    done.
  - intros S replyId value c s state Hc Hst.
    unfold changeSubject, changeBody.
    rewrite !RepliesInboxSpec.update_entry_run by done.
    unfold spread. by rewrite Hst.
  - intros S fetch replyId c s state subject body Hc Hst Hsubject Hbody.
    unfold changeSubject, changeBody.
    rewrite RepliesInboxSpec.update_entry_run by done. cbn [fst snd].
    rewrite RepliesInboxSpec.update_entry_run by done. cbn [fst snd].
    unfold spread. cbn [replyStates RepliesInbox.replies loading expandedReply message].
    rewrite lookup_insert_eq, Hst, insert_insert_eq. cbn [default].
    set (edited := with_draftBody body (with_draftSubject subject state)).
    set (c' := Component _ _ _ _ _ _).
    assert (Hc' : crashed c' = None) by done.
    assert (Hst' : replyStates c' !! replyId = Some edited) by apply lookup_insert_eq.
    assert (Hf : falsy (draftSubject edited) || falsy (draftBody edited) = false).
    { simpl. by rewrite !bool_decide_eq_false_2. }
    assert (Hdata : send_data edited
                    = SendData.Make subject body (RepliesInbox.attachments state))
      by done.
    rewrite <- Hdata.
    destruct (Api.sendDraftReply fetch replyId (send_data edited) s)
      as [[sent|e] s1] eqn:Hsend.
    + rewrite (RepliesInboxSpec.handleSendDraft_sent_run fetch replyId c' s s1 edited sent)
        by done.
      f_equal. f_equal.
      destruct (Api.getInboundReplies fetch s1).1 as [data|e]; [done|].
      subst c'. cbn [RepliesInbox.replies expandedReply replyStates].
      by rewrite insert_insert_eq.
    + rewrite (RepliesInboxSpec.handleSendDraft_failed_run fetch replyId c' s s1 edited e)
        by done.
      subst c'. cbn [RepliesInbox.replies loading expandedReply replyStates].
      by rewrite insert_insert_eq.
  - intros S fetch replyId force c s s1 subject body draft Hc Hgen.
    unfold changeSubject, changeBody.
    rewrite RepliesInboxSpec.update_entry_run by done. cbn [fst snd].
    rewrite RepliesInboxSpec.update_entry_run by done. cbn [fst snd].
    erewrite (RepliesInboxSpec.handleGenerateDraft_done_run fetch replyId force _ s s1 draft);
      [ | done | ].
    + cbn [fst snd replyStates]. rewrite lookup_insert_eq. eauto.
    + cbn [replyStates]. rewrite <- Hgen. f_equal.
      rewrite lookup_insert_eq. unfold chosen_tone, spread.
      rewrite lookup_insert_eq. simpl.
      by destruct (replyStates c !! replyId) as [[]|].
  - apply sendDraftReply_keeps_text.
Qed.

(** C2: with a draft stored for a reply, [generateDraft] with the tone of the
    stored draft and [force=false] returns the stored subject and body with
    [cached=true] and leaves the back end as it was, its log of provider
    calls included (the page then shows "Draft loaded from cache"); with
    another tone it calls the drafting capability, once, for that reply and
    tone, and returns what the capability wrote with [cached=false] (or
    fails when the capability fails), never the stored draft. *)
Theorem generateDraft_cache_key (replyId : Z) (t t' : tone) (s : state) (r : Reply.t)
    (subject body : string) :
  replies s !! replyId = Some r →
  stored_draft r = Some (t', subject, body) →
  (t' = t →
     Api.generateDraft (serve ext) replyId (tone_name t) false s
       = (Returned (Draft.Make subject body true), s)
     ∧ ∀ (c : component) (state : reply_state),
         crashed c = None →
         replyStates c !! replyId = Some state →
         selectedTone state = Some (tone_name t) →
         handleGenerateDraft (serve ext) replyId false (c, s)
         = (Returned (),
            (Component (RepliesInbox.replies c) (loading c) (expandedReply c)
               (Some ("success", "Draft loaded from cache"))
               (<[replyId := with_generatingDraft false
                               (with_draftBody body (with_draftSubject subject state))]>
                  (replyStates c))
               None, s)))
  ∧ (t' ≠ t →
     ∀ force : bool,
       provider_log (Api.generateDraft (serve ext) replyId (tone_name t) force s).2
         = (provider_log s ++ [DraftCall replyId t])%list
       ∧ match compose ext r t (length (provider_log s)) with
         | Some (subject', body') =>
             (Api.generateDraft (serve ext) replyId (tone_name t) force s).1
               = Returned (Draft.Make subject' body' false)
             ∧ replies (Api.generateDraft (serve ext) replyId (tone_name t) force s).2
                 !! replyId = Some (with_draft t subject' body' r)
         | None =>
             (Api.generateDraft (serve ext) replyId (tone_name t) force s).1
               = Thrown (Error "Failed to generate draft")
         end).
Proof.
  intros Hr Hd. split.
  - intros ->.
    assert (Hapi : Api.generateDraft (serve ext) replyId (tone_name t) false s
                   = (Returned (Draft.Make subject body true), s)).
    { by rewrite api_generateDraft, (generateDraft_cached _ _ _ r subject body). }
    split; [done|]. intros c state Hc Hst Htone.
    rewrite (RepliesInboxSpec.handleGenerateDraft_done_run (serve ext) replyId false
               c s s (Draft.Make subject body true) Hc).
    + unfold spread. by rewrite Hst.
    + rewrite Hst. unfold chosen_tone. simpl. rewrite Htone.
      replace (str_or (tone_name t) "FRIENDLY") with (tone_name t) by by destruct t.
      exact Hapi.
  - intros Hne force. rewrite api_generateDraft.
    rewrite (generateDraft_composes replyId t force s r Hr).
    2:{ right. intros t0 subject0 body0 Hd0. congruence. }
    unfold client_view. cbn [fst snd]. split; [apply compose_draft_log|].
    unfold compose_draft.
    destruct (compose ext r t (length (provider_log s))) as [[subject' body']|];
      cbn [fst snd]; [|done].
    split; [done|]. simpl. by rewrite lookup_insert_eq.
Qed.

End Server.

Lemma empty_draft_is_not_sent_witness :
  (SendData.edited_subject (SendData.Make "" "Thanks Ada" None) = ""
   ∨ SendData.edited_body (SendData.Make "" "Thanks Ada" None) = "")
  ∧ Api.sendDraftReply (serve sample_ext) 3 (SendData.Make "" "Thanks Ada" None) sample_state
    = (Thrown (Error "Subject and body are required"), sample_state)
  ∧ handleSendDraft (serve sample_ext) 3 (editor "Re: Hi" "", sample_state)
    = (Returned (),
       (Component [] false (Some 3) (Some ("error", "Please generate a draft first"))
          {[ 3 := editing "Re: Hi" "" ]} None, sample_state)).
Proof.
  split; [by left|]. split.
  - apply (proj1 (empty_draft_is_not_sent sample_ext) 3
             (SendData.Make "" "Thanks Ada" None) sample_state). by left.
  - apply (proj2 (empty_draft_is_not_sent sample_ext) state (serve sample_ext) 3
             (editor "Re: Hi" "") sample_state (editing "Re: Hi" ""));
      [reflexivity | reflexivity | by right].
Defined.

Lemma failed_send_keeps_draft_witness :
  Api.sendDraftReply (serve sample_ext) 3 (send_data (editing "bounce" "Thanks Ada"))
    sample_state
  = (Thrown (Error "Failed to send reply"),
     with_transport_log
       [(Dispatch "msg-2" "bounce" "Thanks Ada" [], false)] sample_state)
  ∧ handleSendDraft (serve sample_ext) 3 (editor "bounce" "Thanks Ada", sample_state)
    = (Returned (),
       (Component [] false (Some 3) (Some ("error", "Failed to send reply"))
          (<[3 := with_sending false (editing "bounce" "Thanks Ada")]>
             {[ 3 := editing "bounce" "Thanks Ada" ]}) None,
        with_transport_log
          [(Dispatch "msg-2" "bounce" "Thanks Ada" [], false)] sample_state))
  ∧ status_of 3
      (Api.sendDraftReply (serve sample_ext) 3 (SendData.Make "bounce" "Thanks Ada" None)
         sample_state).2
    = status_of 3 sample_state.
Proof.
  split; [reflexivity|]. split.
  - apply (proj1 (failed_send_keeps_draft sample_ext) state (serve sample_ext) 3
             (editor "bounce" "Thanks Ada") sample_state _
             (editing "bounce" "Thanks Ada") (Error "Failed to send reply"));
      reflexivity.
  - eapply (proj2 (failed_send_keeps_draft sample_ext) 3
              (SendData.Make "bounce" "Thanks Ada" None) sample_state);
      [reflexivity | reflexivity | discriminate | discriminate | reflexivity].
Defined.

Lemma edits_stay_in_the_page_witness :
  Api.generateDraft (serve sample_ext) 3
    (chosen_tone (replyStates (editor "Re: Hi" "Thanks Ada") !! 3)) true sample_state
  = (Returned (Draft.Make "Re: FRIENDLY" "Draft 1" false),
     (compose_draft sample_ext 3 FRIENDLY
        (Reply.Make 3 1 2 "Sounds good" 5 (Some "INTERESTED") (Some 80) (Some "HIGH")
           ["asks for a call"] None None None None None
           DRAFTED (Some "FRIENDLY") (Some "Re: Hi") (Some "Thanks Ada") None)
        sample_state).2)
  ∧ (∃ entry,
      replyStates
        (handleGenerateDraft (serve sample_ext) 3 true
           (changeBody 3 "My text"
              (changeSubject 3 "My subject"
                 (editor "Re: Hi" "Thanks Ada", sample_state)).2).2).2.1 !! 3
      = Some entry
      ∧ draftSubject entry = Some "Re: FRIENDLY"
      ∧ draftBody entry = Some "Draft 1")
  ∧ (handleSendDraft recording 3
       (changeBody 3 "My text"
          (changeSubject 3 "My subject" (editor "Re: Hi" "Thanks Ada", [])).2).2).2.2
    = [(3, SendData.Make "My subject" "My text" (Some []))].
Proof.
  split; [reflexivity|]. split.
  - destruct (proj1 (proj2 (proj2 (proj2 (edits_stay_in_the_page sample_ext))))
                state (serve sample_ext) 3
                true (editor "Re: Hi" "Thanks Ada") sample_state _ "My subject" "My text"
                (Draft.Make "Re: FRIENDLY" "Draft 1" false) eq_refl eq_refl)
      as (entry & Hentry & Hsubject & Hbody & _).
    by exists entry.
  - exact (f_equal (λ r, r.2.2)
             (proj1 (proj2 (proj2 (edits_stay_in_the_page sample_ext)))
                (list (Z * SendData.t)) recording 3 (editor "Re: Hi" "Thanks Ada") []
                (editing "Re: Hi" "Thanks Ada") "My subject" "My text"
                eq_refl eq_refl ltac:(discriminate) ltac:(discriminate))).
Defined.

Lemma sample_state_consistent : consistent sample_ext sample_state.
Proof.
  split; simpl.
  - by intros i r [<- _]%lookup_singleton_Some.
  - by intros i o [<- _]%lookup_singleton_Some.
  - by intros i o [<- <-]%lookup_singleton_Some.
  - by intros i o [<- <-]%lookup_singleton_Some.
  - by intros i j ri rj [<- _]%lookup_singleton_Some [<- _]%lookup_singleton_Some.
Qed.

Lemma sample_token_inj : Inj (=) (=) (fresh_token sample_ext).
Proof.
  intros i j H. simpl in H.
  by apply (inj (String.app "msg-")), (inj pretty) in H.
Qed.



Lemma syncReplies_idempotent_witness :
  Inj (=) (=) (fresh_token sample_ext)
  ∧ consistent sample_ext sample_state
  ∧ syncReplies sample_ext (syncReplies sample_ext sample_state).2
    = (inr (Api.Synced (Some "Sync complete") 0),
       (syncReplies sample_ext sample_state).2).
Proof.
  split; [exact sample_token_inj|]. split; [exact sample_state_consistent|].
  apply (syncReplies_idempotent sample_ext sample_state sample_token_inj
           sample_state_consistent).
Defined.

Lemma generateDraft_cache_key_witness :
  replies sample_state !! 3
    = Some (Reply.Make 3 1 2 "Sounds good" 5 (Some "INTERESTED") (Some 80) (Some "HIGH")
              ["asks for a call"] None None None None None
              DRAFTED (Some "FRIENDLY") (Some "Re: Hi") (Some "Thanks Ada") None)
  ∧ Api.generateDraft (serve sample_ext) 3 "FRIENDLY" false sample_state
    = (Returned (Draft.Make "Re: Hi" "Thanks Ada" true), sample_state).
Proof.
  split; [reflexivity|].
  eapply (proj1 (generateDraft_cache_key sample_ext 3 FRIENDLY FRIENDLY sample_state
                   _ "Re: Hi" "Thanks Ada" eq_refl eq_refl) eq_refl).
Defined.

End WorkflowSpec.

(** * Further properties of the Leads page *)
Module LeadsFacts.
Import Lead Leads LeadsPage.

(** ** More on the sort of [Js] *)
Section Sort.
Context {A : Type} (comparefn : A → A → Js.number).

Lemma insert_head (x : A) (l : list A) :
  Forall (λ y, Js.SortCompare comparefn x y ≤ 0) l →
  Js.insert comparefn x l = x :: l.
Proof.
  destruct 1 as [|y l Hy _]; simpl; [done|].
  by destruct (Z.ltb_spec 0 (Js.SortCompare comparefn x y)); [lia|].
Qed.

(** Sorting a list that is already in order gives the list back. *)
Lemma sort_sorted (R : A → A → Prop) (l : list A) :
  (∀ x y, x ∈ l → y ∈ l → R x y → Js.SortCompare comparefn x y ≤ 0) →
  StronglySorted R l → Js.sort comparefn l = l.
Proof.
  intros HR Hs. induction Hs as [|x l Hs IH Hx]; simpl; [done|].
  rewrite IH.
  - apply insert_head. rewrite Forall_forall in *. intros y Hy.
    apply HR; [by left | by right | by apply Hx].
  - intros y z Hy Hz. apply HR; by right.
Qed.

(** A class [p] of elements that the comparator never puts strictly before
    one of its members keeps its order. *)
Context (P : A → Prop) (p : A → bool).
Hypothesis class_apart :
  ∀ x y, P x → P y → p x = true → 0 < Js.SortCompare comparefn x y → p y = false.

Lemma filter_insert (x : A) (l : list A) :
  P x → Forall P l →
  List.filter p (Js.insert comparefn x l) = List.filter p (x :: l).
Proof.
  intros Px HP. induction HP as [|y l Py HP IH]; [done|].
  cbn [Js.insert].
  destruct (Z.ltb_spec 0 (Js.SortCompare comparefn x y)) as [Hlt|Hle]; [|done].
  cbn [List.filter] in *. rewrite IH.
  destruct (p x) eqn:Hx; [|done].
  by rewrite (class_apart x y Px Py Hx Hlt).
Qed.

Lemma filter_sort (l : list A) :
  Forall P l → List.filter p (Js.sort comparefn l) = List.filter p l.
Proof.
  induction 1 as [|x l Px HP IH]; [done|].
  cbn [Js.sort]. rewrite filter_insert; [|done|].
  - cbn [List.filter]. by rewrite IH.
  - by rewrite LeadsSpec.sort_Permutation.
Qed.

End Sort.

(** ** The filters *)

Lemma passes_filters_spec (pf intf : string) (l : Lead.t) :
  passes_filters pf intf l = true
  ↔ (pf = "ALL" ∨ lead_priority l = Some pf)
    ∧ (intf = "ALL" ∨ last_reply_intent l = Some intf).
Proof.
  unfold passes_filters.
  repeat (case_bool_decide; simpl); intuition congruence.
Qed.

(** X1: the list [filteredLeads], from which the table is rendered and whose
    length the page shows, holds exactly the loaded leads that match the two
    filters, each as often as it occurs in the list loaded (a filter set to
    "ALL" matches every lead, any other value only the leads that carry it);
    so it is never longer than the list loaded, and with both filters at
    "ALL" it is a rearrangement of it. *)
Theorem filteredLeads_matches (pf intf : string) (leads : list Lead.t) :
  filteredLeads pf intf leads
  ≡ₚ List.filter
       (λ l, bool_decide ((pf = "ALL" ∨ lead_priority l = Some pf)
                          ∧ (intf = "ALL" ∨ last_reply_intent l = Some intf)))
       leads
  ∧ (∀ l, l ∈ filteredLeads pf intf leads
          ↔ l ∈ leads
            ∧ (pf = "ALL" ∨ lead_priority l = Some pf)
            ∧ (intf = "ALL" ∨ last_reply_intent l = Some intf))
  ∧ (length (filteredLeads pf intf leads) ≤ length leads)%nat
  ∧ filteredLeads "ALL" "ALL" leads ≡ₚ leads.
Proof.
  split; [|split; [|split]].
  - unfold filteredLeads. rewrite LeadsSpec.sort_Permutation.
    erewrite List.filter_ext; [done|]. intros l. symmetry.
    destruct (passes_filters pf intf l) eqn:Hl.
    + by apply bool_decide_eq_true_2, passes_filters_spec.
    + apply bool_decide_eq_false_2. intros H%passes_filters_spec. congruence.
  - intros l. unfold filteredLeads. rewrite LeadsSpec.sort_Permutation.
    rewrite list_elem_of_In, filter_In, <- list_elem_of_In.
    by rewrite passes_filters_spec.
  - unfold filteredLeads. rewrite LeadsSpec.sort_Permutation. apply filter_length_le.
  - unfold filteredLeads. rewrite LeadsSpec.sort_Permutation.
    induction leads as [|l leads IH]; [done|]. simpl. by rewrite IH.
Qed.

Lemma strict_neq_same (r : rank_value) : strict_neq r r = false.
Proof.
  destruct r; simpl; [by rewrite Z.eqb_refl | by rewrite bool_decide_eq_true_2].
Qed.

Lemma compare_same_priority (a b : Lead.t) :
  lead_priority a = lead_priority b →
  compare_leads a b = Js.Int (score b - score a).
Proof. unfold compare_leads. intros ->. by rewrite strict_neq_same. Qed.

(** X2: with the priority filter set to a priority (anything but "ALL"),
    every row of the table has that priority and the rows are in descending
    score, whatever the priority strings and scores of the leads. *)
Theorem priority_filter_by_score (pf intf : string) (leads : list Lead.t) :
  pf ≠ "ALL" →
  Forall (λ l, lead_priority l = Some pf) (filteredLeads pf intf leads)
  ∧ StronglySorted score_above (filteredLeads pf intf leads).
Proof.
  intros Hpf.
  assert (Hall : Forall (λ l, lead_priority l = Some pf)
                   (List.filter (passes_filters pf intf) leads)).
  { rewrite Forall_forall. intros l Hl%list_elem_of_In%filter_In.
    destruct Hl as [_ [[?|?] _]%passes_filters_spec]; done. }
  split.
  - unfold filteredLeads. by rewrite LeadsSpec.sort_Permutation.
  - unfold filteredLeads.
    apply (LeadsSpec.sort_StronglySorted compare_leads
             (λ l, lead_priority l = Some pf) score_above); [| | |done].
    + unfold score_above. intros x y z. lia.
    + intros x y Hx Hy. unfold Js.SortCompare, score_above.
      rewrite compare_same_priority by congruence. lia.
    + intros x y Hx Hy. unfold Js.SortCompare, score_above.
      rewrite compare_same_priority by congruence. lia.
Qed.

Lemma priority_filter_by_score_witness :
  "HIGH" ≠ "ALL"
  ∧ StronglySorted score_above (filteredLeads "HIGH" "ALL" example_leads).
Proof.
  split; [done|].
  apply (priority_filter_by_score "HIGH" "ALL" example_leads). done.
Defined.

Lemma compare_same_key (a b : Lead.t) :
  plain a → plain b → sort_key a = sort_key b → Js.SortCompare compare_leads a b = 0.
Proof.
  intros Ha Hb Heq. unfold Js.SortCompare, sort_key in *.
  rewrite LeadsSpec.compare_leads_plain by done. simplify_eq.
  case_decide; lia.
Qed.

(** X3: on leads with plain priorities the comparator is consistent: swapping
    the arguments negates the result, and the result is zero exactly for two
    leads of the same rank and score. *)
Theorem compare_leads_consistent (a b : Lead.t) :
  plain a → plain b →
  Js.SortCompare compare_leads b a = - Js.SortCompare compare_leads a b
  ∧ (Js.SortCompare compare_leads a b = 0 ↔ sort_key a = sort_key b).
Proof.
  intros Ha Hb. unfold Js.SortCompare, sort_key.
  rewrite !LeadsSpec.compare_leads_plain by done.
  repeat case_decide; split; try lia; split; intros Heq; simplify_eq; try lia.
  f_equal; lia.
Qed.

Lemma compare_leads_consistent_witness :
  plain (sample 1 "LOW" 10) ∧ plain (sample 2 "HIGH" 90)
  ∧ Js.SortCompare compare_leads (sample 2 "HIGH" 90) (sample 1 "LOW" 10)
    = - Js.SortCompare compare_leads (sample 1 "LOW" 10) (sample 2 "HIGH" 90).
Proof.
  assert (H1 : plain (sample 1 "LOW" 10))
    by (intros k [= <-]; by apply (bool_decide_unpack _)).
  assert (H2 : plain (sample 2 "HIGH" 90))
    by (intros k [= <-]; by apply (bool_decide_unpack _)).
  split; [exact H1|]. split; [exact H2|].
  apply (compare_leads_consistent (sample 1 "LOW" 10) (sample 2 "HIGH" 90) H1 H2).
Defined.

Lemma filtered_plain (pf intf : string) (leads : list Lead.t) :
  Forall plain leads → Forall plain (List.filter (passes_filters pf intf) leads).
Proof.
  rewrite !Forall_forall. intros Hp l Hl%list_elem_of_In%filter_In.
  apply Hp, list_elem_of_In, Hl.
Qed.

(** X4: the sort is stable on the page: leads with plain priorities that have
    the same rank and the same score appear in the table in the order in which
    the server listed them. *)
Theorem ties_keep_server_order (pf intf : string) (leads : list Lead.t) (k : Z * Z) :
  Forall plain leads →
  List.filter (λ l, bool_decide (sort_key l = k)) (filteredLeads pf intf leads)
  = List.filter (λ l, bool_decide (sort_key l = k))
      (List.filter (passes_filters pf intf) leads).
Proof.
  intros Hp. unfold filteredLeads.
  apply (filter_sort compare_leads plain); [|by apply filtered_plain].
  intros x y Hx Hy Hk Hlt. apply bool_decide_eq_true in Hk.
  apply bool_decide_eq_false. intros Hy'.
  rewrite (compare_same_key x y Hx Hy) in Hlt by congruence. lia.
Qed.

Lemma ties_keep_server_order_witness :
  Forall plain [sample 1 "HIGH" 70; sample 2 "LOW" 10; sample 3 "HIGH" 70]
  ∧ List.filter (λ l, bool_decide (sort_key l = (4, 70)))
      (filteredLeads "ALL" "ALL"
         [sample 1 "HIGH" 70; sample 2 "LOW" 10; sample 3 "HIGH" 70])
    = [sample 1 "HIGH" 70; sample 3 "HIGH" 70].
Proof.
  assert (H : Forall plain [sample 1 "HIGH" 70; sample 2 "LOW" 10; sample 3 "HIGH" 70])
    by (repeat constructor; intros k [= <-]; by apply (bool_decide_unpack _)).
  split; [exact H|].
  apply (ties_keep_server_order "ALL" "ALL" _ (4, 70) H).
Defined.

(** X5: rendering is idempotent: filtering and sorting the rows of the table
    again, with the same filters, gives the same rows in the same order (for
    leads with plain priorities). *)
Theorem filteredLeads_idempotent (pf intf : string) (leads : list Lead.t) :
  Forall plain leads →
  filteredLeads pf intf (filteredLeads pf intf leads) = filteredLeads pf intf leads.
Proof.
  intros Hp.
  assert (Hd : Forall plain (filteredLeads pf intf leads)).
  { unfold filteredLeads. rewrite LeadsSpec.sort_Permutation. by apply filtered_plain. }
  assert (Hkeep : List.filter (passes_filters pf intf) (filteredLeads pf intf leads)
                  = filteredLeads pf intf leads).
  { apply forallb_filter_id, forallb_forall. intros l Hl.
    apply list_elem_of_In in Hl. unfold filteredLeads in Hl.
    rewrite LeadsSpec.sort_Permutation in Hl.
    by apply list_elem_of_In, filter_In in Hl as [_ ?]. }
  unfold filteredLeads at 1. rewrite Hkeep.
  apply (sort_sorted compare_leads above); [|by apply LeadsSpec.filteredLeads_above].
  rewrite Forall_forall in Hd.
  intros x y Hx Hy Hab. unfold Js.SortCompare, above in *.
  rewrite LeadsSpec.compare_leads_plain by by apply Hd. case_decide; lia.
Qed.

Lemma filteredLeads_idempotent_witness :
  Forall plain example_leads
  ∧ filteredLeads "ALL" "ALL" (filteredLeads "ALL" "ALL" example_leads)
    = filteredLeads "ALL" "ALL" example_leads.
Proof.
  split; [exact LeadsSpec.example_leads_plain|].
  apply (filteredLeads_idempotent "ALL" "ALL" example_leads LeadsSpec.example_leads_plain).
Defined.

End LeadsFacts.

(** * Further properties of the API client *)
Module ApiFacts.
Import Js Api Getters.

Section Client.
Context {S : Type} (fetch : ∀ A, request A → M S (response A)).

Lemma getter_answered {A} (g : getter A) (s s' : S) (r : response A) :
  fetch A (Getters.request_of g) s = (Returned r, s') →
  Getters.run fetch g s = settle_get (fixed_message g) r s'.
Proof.
  intros Hf. destruct g; simpl in *;
    unfold getLeads, getOutboundEmails, getInboundReplies, mbind, M_bind, bind;
    by rewrite Hf.
Qed.

End Client.

(** X6: [getLeads], [getOutboundEmails] and [getInboundReplies] never report
    what the server says about a failure: on a response that is not ok they
    throw an Error with their own fixed message ("Failed to fetch leads",
    "Failed to fetch outbound emails", "Failed to fetch replies"), whatever
    the body (a [detail], no JSON at all); on a response that is ok they
    return the parsed body, or fail with the parse error when the body is not
    JSON; and when [fetch] itself fails they fail with its error. *)
Theorem getter_outcome {S A : Type}
    (fetch : ∀ A, request A → M S (response A))
    (g : getter A) (s s' : S) :
  (∀ r, fetch A (Getters.request_of g) s = (Returned r, s') →
     (∀ body, r = NotOk body →
        Getters.run fetch g s = (Thrown (Error (fixed_message g)), s'))
     ∧ (∀ a, r = Ok (Returned a) → Getters.run fetch g s = (Returned a, s'))
     ∧ (∀ e, r = Ok (Thrown e) → Getters.run fetch g s = (Thrown e, s')))
  ∧ (∀ e, fetch A (Getters.request_of g) s = (Thrown e, s') →
       Getters.run fetch g s = (Thrown e, s'))
  ∧ fixed_message GetLeads = "Failed to fetch leads"
  ∧ fixed_message GetOutboundEmails = "Failed to fetch outbound emails"
  ∧ fixed_message GetInboundReplies = "Failed to fetch replies".
Proof.
  split; [|split; [|done]].
  - intros r Hf. rewrite (getter_answered fetch g s s' r Hf).
    split; [by intros body -> | split; [by intros a -> | by intros e ->]].
  - intros e Hf. destruct g; simpl in *;
      unfold getLeads, getOutboundEmails, getInboundReplies, mbind, M_bind, bind;
      by rewrite Hf.
Qed.

Lemma getter_outcome_witness :
  failing (JObj [("detail", JStr "Database is down")]) (list Outbound.t)
    (Getters.request_of GetOutboundEmails) ()
  = (Returned (NotOk (Returned (JObj [("detail", JStr "Database is down")]))), ())
  ∧ Getters.run (failing (JObj [("detail", JStr "Database is down")])) GetOutboundEmails ()
    = (Thrown (Error "Failed to fetch outbound emails"), ()).
Proof.
  split; [reflexivity|].
  exact (proj1 (proj1 (getter_outcome (failing (JObj [("detail", JStr "Database is down")]))
                         GetOutboundEmails () ()) _ eq_refl) _ eq_refl).
Defined.

(** X7: a mutating function does not fall back to its fixed message when the
    error body cannot be read: if the body of a response that is not ok is
    not JSON, the function fails with the parse error of [response.json()];
    if the body is the JSON [null], it fails with the TypeError of the read
    of [detail]; and if the body of an ok response is not JSON, it fails
    with the parse error as well. *)
Theorem unreadable_body {S A : Type}
    (fetch : ∀ A, request A → M S (response A))
    (c : mutating A) (s s' : S) (r : response A) :
  fetch A (Api.request_of c) s = (Returned r, s') →
  (∀ e, r = NotOk (Thrown e) → Api.run fetch c s = (Thrown e, s'))
  ∧ (r = NotOk (Returned JNull) →
     Api.run fetch c s = (Thrown (TypeError null_read_message), s'))
  ∧ (∀ e, r = Ok (Thrown e) → Api.run fetch c s = (Thrown e, s')).
Proof.
  intros Hf. rewrite (ApiSpec.run_answered fetch c s s' r Hf).
  split; [by intros e -> | split; [by intros -> | by intros e ->]].
Qed.

Lemma unreadable_body_witness :
  (λ A (req : request A) (s : unit),
     (Returned (@NotOk A (Thrown (SyntaxError "Unexpected token <"))), s))
    Lead.t (Api.request_of (CreateLead (LeadForm.Make "Ada" "ada@example.com" ""))) ()
  = (Returned (NotOk (Thrown (SyntaxError "Unexpected token <"))), ())
  ∧ Api.run
      (λ A (req : request A) (s : unit),
         (Returned (@NotOk A (Thrown (SyntaxError "Unexpected token <"))), s))
      (CreateLead (LeadForm.Make "Ada" "ada@example.com" "")) ()
    = (Thrown (SyntaxError "Unexpected token <"), ()).
Proof.
  split; [reflexivity|].
  eapply (proj1 (unreadable_body _ (CreateLead _) () () _ eq_refl)). reflexivity.
Defined.

Lemma objects_to_string (items : list json) :
  Forall is_object items →
  convert_all (λ i, match i with JNull => Returned "" | _ => to_string i end) items
  = Returned (replicate (length items) "[object Object]").
Proof.
  induction 1 as [|[] items Hi _ IH]; simpl in *; try done.
  by rewrite Hi, IH.
Qed.

Lemma hidden_toString (before after : list json) (fs : list (string * json)) (v : json) :
  Forall is_object before →
  own_property "toString" fs = Some v →
  convert_all (λ i, match i with JNull => Returned "" | _ => to_string i end)
    (before ++ JObj fs :: after)
  = Thrown (TypeError no_primitive_message).
Proof.
  intros Hbefore Hfs. induction Hbefore as [|[] before Hi _ IH]; simpl in *; try done.
  - by rewrite Hfs.
  - by rewrite Hi, IH.
Qed.

(** X8: a [detail] that is not a string is turned into one by [new Error].
    For a list of error objects, as in the validation errors of a 422 answer,
    the message is "[object Object]" once per item, joined by commas, and not
    the text of the errors. An object with a property named [toString] has no
    string form: when [detail] is such an object, or a list whose first item
    that is not a plain object is one, the function throws a TypeError in
    place of its Error. For a safe integer other than 0 the message is the
    decimal numeral. *)
Theorem detail_not_a_string {S A : Type}
    (fetch : ∀ A, request A → M S (response A))
    (c : mutating A) (s s' : S) (fields : list (string * json)) :
  fetch A (Api.request_of c) s = (Returned (NotOk (Returned (JObj fields))), s') →
  (∀ items,
     own_property "detail" fields = Some (JArr items) →
     Forall is_object items →
     Api.run fetch c s
     = (Thrown (Error (join "," (replicate (length items) "[object Object]"))), s'))
  ∧ (∀ before after fs v,
     own_property "detail" fields = Some (JArr (before ++ JObj fs :: after)) →
     Forall is_object before →
     own_property "toString" fs = Some v →
     Api.run fetch c s = (Thrown (TypeError no_primitive_message), s'))
  ∧ (∀ fs,
     own_property "detail" fields = Some (JObj fs) →
     Api.run fetch c s
     = (Thrown (match own_property "toString" fs with
                | Some _ => TypeError no_primitive_message
                | None => Error "[object Object]"
                end), s'))
  ∧ (∀ n safe,
     own_property "detail" fields = Some (JNum n safe) → n ≠ 0 →
     Api.run fetch c s = (Thrown (Error (pretty n)), s')).
Proof.
  intros Hf. rewrite (ApiSpec.run_answered fetch c s s' _ Hf). simpl.
  split; [|split; [|split]].
  - intros items -> Hitems. simpl. by rewrite objects_to_string.
  - intros before after fs v -> Hbefore Hfs. simpl.
    by rewrite (hidden_toString before after fs v).
  - intros fs ->. simpl. by destruct (own_property "toString" fs).
  - intros n safe -> Hn. simpl. by apply Z.eqb_neq in Hn as ->.
Qed.

Lemma detail_not_a_string_witness :
  failing (JObj [("detail", JArr [JObj [("msg", JStr "value is not a valid email")];
                                   JObj [("msg", JStr "field required")]])])
    Lead.t (Api.request_of (CreateLead (LeadForm.Make "Ada" "ada" ""))) ()
  = (Returned
       (NotOk (Returned
          (JObj [("detail", JArr [JObj [("msg", JStr "value is not a valid email")];
                                   JObj [("msg", JStr "field required")]])]))), ())
  ∧ Api.run
      (failing (JObj [("detail", JArr [JObj [("msg", JStr "value is not a valid email")];
                                        JObj [("msg", JStr "field required")]])]))
      (CreateLead (LeadForm.Make "Ada" "ada" "")) ()
    = (Thrown (Error "[object Object],[object Object]"), ())
  ∧ Api.run
      (failing (JObj [("detail", JArr [JObj [("toString", JStr "x")]])]))
      (CreateLead (LeadForm.Make "Ada" "ada" "")) ()
    = (Thrown (TypeError no_primitive_message), ()).
Proof.
  split; [reflexivity|].
  assert (Hitems : Forall is_object
                     [JObj [("msg", JStr "value is not a valid email")];
                      JObj [("msg", JStr "field required")]])
    by by repeat constructor.
  split.
  - exact (proj1 (detail_not_a_string
                    (failing (JObj [("detail",
                       JArr [JObj [("msg", JStr "value is not a valid email")];
                             JObj [("msg", JStr "field required")]])]))
                    (CreateLead (LeadForm.Make "Ada" "ada" "")) () () _ eq_refl)
             [JObj [("msg", JStr "value is not a valid email")];
              JObj [("msg", JStr "field required")]]
             eq_refl Hitems).
  - exact (proj1 (proj2 (detail_not_a_string
                    (failing (JObj [("detail", JArr [JObj [("toString", JStr "x")]])]))
                    (CreateLead (LeadForm.Make "Ada" "ada" "")) () () _ eq_refl))
             [] [] [("toString", JStr "x")] (JStr "x") eq_refl (Forall_nil_2 _) eq_refl).
Defined.

End ApiFacts.

(** * Properties of the form of the Leads page *)
Module LeadsPageFacts.
Import Js LeadsPage.

Section Page.
Context {S : Type} (fetch : ∀ A, Api.request A → M S (Api.response A)).

(** What [loadLeads] does, by the outcome of [getLeads]. *)
Lemma loadLeads_run (c : component) (s : S) :
  loadLeads fetch (c, s)
  = (Returned (),
     (Component
        (match (Api.getLeads fetch s).1 with
         | Returned data => data
         | Thrown _ => leads c
         end)
        false (formData c) (submitting c) (message c)
        (priorityFilter c) (intentFilter c),
      (Api.getLeads fetch s).2)).
Proof.
  unfold loadLeads, finally, try_catch, mbind, M_bind, bind, api. cbn [fst snd].
  by destruct (Api.getLeads fetch s) as [[data|e] s'].
Qed.

(** X9: when [createLead] fails, [handleSubmit] keeps what the user typed in
    the form and the list of leads, makes no further request, shows the
    message of the error (or "Failed to create lead" when that is empty), and
    enables the submit button again. *)
Theorem handleSubmit_failure (c : component) (s s' : S) (e : exn) :
  Api.createLead fetch (formData c) s = (Thrown e, s') →
  handleSubmit fetch (c, s)
  = (Returned (),
     (Component (leads c) (loading c) (formData c) false
        (Some ("error", str_or (Js.message e) "Failed to create lead"))
        (priorityFilter c) (intentFilter c), s')).
Proof.
  intros Hcreate.
  unfold handleSubmit, finally, try_catch, mbind, M_bind, bind, api, get.
  unfold setMessage, setFormData, setSubmitting, set_component, modify.
  cbn [fst snd formData]. by rewrite Hcreate.
Qed.

(** X10: when [createLead] succeeds, [handleSubmit] empties the form, shows
    "Lead created successfully!", and asks for the leads again: the list is
    the one [getLeads] returns, or stays as it was when that request fails
    (the success message stays in both cases); the submit button is enabled
    again and the page is no longer loading. *)
Theorem handleSubmit_success (c : component) (s s1 : S) (created : Lead.t) :
  Api.createLead fetch (formData c) s = (Returned created, s1) →
  handleSubmit fetch (c, s)
  = (Returned (),
     (Component
        (match (Api.getLeads fetch s1).1 with
         | Returned data => data
         | Thrown _ => leads c
         end)
        false (Api.LeadForm.Make "" "" "") false
        (Some ("success", "Lead created successfully!"))
        (priorityFilter c) (intentFilter c),
      (Api.getLeads fetch s1).2)).
Proof.
  intros Hcreate.
  unfold handleSubmit, finally, try_catch, mbind, M_bind, bind, api, get.
  unfold setMessage, setFormData, setSubmitting, set_component, modify.
  cbn [fst snd formData]. rewrite Hcreate. cbn [fst snd].
  rewrite loadLeads_run. done.
Qed.

End Page.

Lemma handleSubmit_failure_witness :
  Api.createLead (Api.failing (Api.JObj [("detail", Api.JStr "Email already exists")]))
    (formData (Component [] false (Api.LeadForm.Make "Ada" "ada@example.com" "") false
                 None "ALL" "ALL")) ()
  = (Thrown (Error "Email already exists"), ())
  ∧ handleSubmit (Api.failing (Api.JObj [("detail", Api.JStr "Email already exists")]))
      (Component [] false (Api.LeadForm.Make "Ada" "ada@example.com" "") false
         None "ALL" "ALL", ())
    = (Returned (),
       (Component [] false (Api.LeadForm.Make "Ada" "ada@example.com" "") false
          (Some ("error", "Email already exists")) "ALL" "ALL", ())).
Proof.
  split; [reflexivity|].
  exact (handleSubmit_failure
           (Api.failing (Api.JObj [("detail", Api.JStr "Email already exists")]))
           (Component [] false (Api.LeadForm.Make "Ada" "ada@example.com" "") false
              None "ALL" "ALL")
           () () (Error "Email already exists") eq_refl).
Defined.

Lemma handleSubmit_success_witness :
  Api.createLead (accepting [Leads.sample 1 "HIGH" 90])
    (formData (Component [] false (Api.LeadForm.Make "Bob" "bob@example.com" "") false
                 None "ALL" "ALL")) ()
  = (Returned (Lead.Make 1 "Bob" "bob@example.com" None "NEW" None None None None), ())
  ∧ handleSubmit (accepting [Leads.sample 1 "HIGH" 90])
      (Component [] false (Api.LeadForm.Make "Bob" "bob@example.com" "") false
         None "ALL" "ALL", ())
    = (Returned (),
       (Component [Leads.sample 1 "HIGH" 90] false (Api.LeadForm.Make "" "" "") false
          (Some ("success", "Lead created successfully!")) "ALL" "ALL", ())).
Proof.
  split; [reflexivity|].
  exact (handleSubmit_success (accepting [Leads.sample 1 "HIGH" 90])
           (Component [] false (Api.LeadForm.Make "Bob" "bob@example.com" "") false
              None "ALL" "ALL")
           () () (Lead.Make 1 "Bob" "bob@example.com" None "NEW" None None None None)
           eq_refl).
Defined.

End LeadsPageFacts.

(** * Properties of the dashboard *)
Module DashboardFacts.
Import Js Dashboard.

Lemma count_le (p q : Lead.t → bool) (leads : list Lead.t) :
  (∀ l, p l = true → q l = true) → (count p leads ≤ count q leads)%nat.
Proof.
  intros Hpq. unfold count. induction leads as [|l leads IH]; simpl; [done|].
  destruct (p l) eqn:Hp.
  - rewrite (Hpq l Hp). simpl. lia.
  - destruct (q l); simpl; lia.
Qed.

(** X11: the counters of the dashboard are related as the cards suggest: the
    replied leads are among the emailed ones, which are among all leads, and
    the four priority cards count disjoint sets of leads, which together with
    the leads of no or another priority make up all leads. *)
Theorem counters_add_up (leads : list Lead.t) :
  (replied (compute leads) ≤ emailed (compute leads))%nat
  ∧ (emailed (compute leads) ≤ totalLeads (compute leads))%nat
  ∧ (highPriority (compute leads) + mediumPriority (compute leads)
     + lowPriority (compute leads) + ignorePriority (compute leads)
     + count unranked leads = totalLeads (compute leads))%nat.
Proof.
  split; [|split]; simpl.
  - apply count_le. intros l ->. apply orb_true_r.
  - apply filter_length_le.
  - unfold count. induction leads as [|l leads IH]; [done|].
    cbn [List.filter length]. unfold unranked at 1.
    destruct (has_priority "HIGH" l) eqn:H1, (has_priority "MEDIUM" l) eqn:H2,
             (has_priority "LOW" l) eqn:H3, (has_priority "IGNORE" l) eqn:H4;
      simpl; try lia; exfalso; unfold has_priority in *;
      repeat match goal with
             | H : bool_decide _ = true |- _ => apply bool_decide_eq_true in H
             end; congruence.
Qed.

Section Page.
Context {S : Type} (fetch : ∀ A, Api.request A → M S (Api.response A)).



End Page.


End DashboardFacts.

(** * Objects filled in a loop *)
Module MapFacts.
Import InboxVocabulary.

Section Fill.
Context {A V : Type} (key : A → Z) (f : A → V).

(** An object filled by [forEach] holds, under a key, the value of the last
    element with that key. *)
Lemma foldl_insert_lookup (l : list A) (i : Z) :
  foldl (λ m x, <[key x := f x]> m) (∅ : gmap Z V) l !! i
  = f <$> last_such (λ x, key x =? i) l.
Proof.
  unfold last_such. induction l as [|x l IH] using rev_ind; [done|].
  rewrite foldl_snoc, List.filter_app. simpl.
  destruct (Z.eqb_spec (key x) i) as [->|Hne].
  - by rewrite lookup_insert_eq, last_snoc.
  - by rewrite lookup_insert_ne, app_nil_r.
Qed.

Lemma last_such_Some (p : A → bool) (l : list A) (x : A) :
  last_such p l = Some x → x ∈ l ∧ p x = true.
Proof.
  unfold last_such. intros Hlast.
  assert (x ∈ List.filter p l) as Hin.
  { apply last_Some in Hlast as [l' ->]. apply elem_of_app. right. by left. }
  apply list_elem_of_In, filter_In in Hin as [Hin Hp].
  by apply list_elem_of_In in Hin.
Qed.

Lemma last_such_is_Some (p : A → bool) (l : list A) (x : A) :
  x ∈ l → p x = true → is_Some (last_such p l).
Proof.
  unfold last_such. intros Hin Hp.
  assert (x ∈ List.filter p l) as Hf.
  { apply list_elem_of_In, filter_In. split; [by apply list_elem_of_In | done]. }
  destruct (List.filter p l) as [|y l'] using rev_ind; [by apply elem_of_nil in Hf|].
  rewrite last_snoc. by eexists.
Qed.

End Fill.

End MapFacts.

(** * Properties of the outbound emails page *)
Module OutboundEmailsFacts.
Import Js OutboundEmails InboxVocabulary.

(** X13: the object [leadsMap] that [loadData] builds has an entry for an id
    exactly when one of the leads loaded has that id, and the entry is the
    last such lead of the list; so the recipient line of an email shows a
    lead with the email's [lead_id], and is missing when no lead has it. *)
Theorem leadsMap_lookup (leadsData : list Lead.t) (i : Z) :
  leadsMap leadsData !! i = last_such (λ l, Lead.id l =? i) leadsData
  ∧ (is_Some (leadsMap leadsData !! i) ↔ ∃ l, l ∈ leadsData ∧ Lead.id l = i)
  ∧ (∀ l, leadsMap leadsData !! i = Some l → l ∈ leadsData ∧ Lead.id l = i).
Proof.
  assert (Hlookup : leadsMap leadsData !! i
                    = last_such (λ l, Lead.id l =? i) leadsData).
  { unfold leadsMap. rewrite (MapFacts.foldl_insert_lookup Lead.id id).
    by destruct (last_such _ _). }
  split; [done|]. rewrite Hlookup. split; [split|].
  - intros [l Hl]. apply MapFacts.last_such_Some in Hl as [Hin Heq].
    exists l. split; [done | by apply Z.eqb_eq].
  - intros (l & Hin & Heq). eapply MapFacts.last_such_is_Some; [done|].
    by apply Z.eqb_eq.
  - intros l Hl. apply MapFacts.last_such_Some in Hl as [Hin Heq].
    split; [done | by apply Z.eqb_eq].
Qed.

Section Page.
Context {S : Type} (fetch : ∀ A, Api.request A → M S (Api.response A)).

(** X14: [loadData] is all or nothing: the emails and the leads of the page
    are replaced together when both [getOutboundEmails] and [getLeads]
    succeed, and both stay as they were when either fails; both requests are
    made in any case, and the page stops loading in any case. *)
Theorem loadData_all_or_nothing (c : component) (s : S) :
  loadData fetch (c, s)
  = (Returned (),
     (match (Api.getOutboundEmails fetch s).1,
            (Api.getLeads fetch (Api.getOutboundEmails fetch s).2).1 with
      | Returned emailsData, Returned leadsData =>
          Component emailsData (leadsMap leadsData) false (expandedId c)
      | _, _ => Component (emails c) (leads c) false (expandedId c)
      end,
      (Api.getLeads fetch (Api.getOutboundEmails fetch s).2).2)).
Proof.
  unfold loadData, finally, try_catch, mbind, M_bind, bind, api, all2.
  unfold setEmails, setLeads, setLoading, modify. cbn [fst snd].
  destruct (Api.getOutboundEmails fetch s) as [[emailsData|e1] s1]; cbn [fst snd];
    destruct (Api.getLeads fetch s1) as [[leadsData|e2] s2]; done.
Qed.

End Page.

End OutboundEmailsFacts.

(** * Further properties of the Replies inbox *)
Module RepliesInboxFacts.
Import Js RepliesInbox InboxVocabulary.

Section Runs.
Context {S : Type} (fetch : ∀ A, Api.request A → M S (Api.response A)).
Context (replyId : Z).

Lemma handleGenerateNextAction_run (force : bool) (c : component) (s : S) :
  crashed c = None →
  handleGenerateNextAction fetch replyId force (c, s)
  = (Returned (),
     (Component
        (match (Api.generateNextAction fetch replyId force s).1 with
         | Returned action => apply_action replyId action <$> replies c
         | Thrown _ => replies c
         end)
        (loading c) (expandedReply c)
        (Some (match (Api.generateNextAction fetch replyId force s).1 with
               | Returned _ => ("success", "Next action generated!")
               | Thrown e => ("error", Js.message e)
               end))
        (<[replyId := with_generatingAction false (spread (replyStates c) replyId)]>
           (replyStates c))
        None,
      (Api.generateNextAction fetch replyId force s).2)).
Proof.
  intros Hc. unfold handleGenerateNextAction.
  unfold mbind at 1, M_bind at 1, bind at 1.
  rewrite RepliesInboxSpec.update_entry_run by done.
  unfold finally, try_catch, mbind, M_bind, bind, api. cbn [fst snd].
  destruct (Api.generateNextAction fetch replyId force s) as [[action|e] s'];
    cbn [fst snd].
  - rewrite RepliesInboxSpec.setReplies_run by done. rewrite RepliesInboxSpec.showMessage_run by done.
    rewrite RepliesInboxSpec.update_entry_run by done.
    cbn [replyStates replies loading expandedReply message].
    unfold spread. rewrite lookup_insert_eq, insert_insert_eq. simpl.
    by destruct (replyStates c !! replyId) as [[]|].
  - rewrite RepliesInboxSpec.showMessage_run by done.
    rewrite RepliesInboxSpec.update_entry_run by done.
    cbn [replyStates replies loading expandedReply message].
    unfold spread. rewrite lookup_insert_eq, insert_insert_eq. simpl.
    by destruct (replyStates c !! replyId) as [[]|].
Qed.

Lemma handleGenerateDraft_failed_run (force : bool) (c : component) (s s1 : S) (e : exn) :
  crashed c = None →
  Api.generateDraft fetch replyId (chosen_tone (replyStates c !! replyId)) force s
    = (Thrown e, s1) →
  handleGenerateDraft fetch replyId force (c, s)
  = (Returned (),
     (Component (replies c) (loading c) (expandedReply c)
        (Some ("error", Js.message e))
        (<[replyId := with_generatingDraft false (spread (replyStates c) replyId)]>
           (replyStates c))
        None, s1)).
Proof.
  intros Hc Hgen. unfold handleGenerateDraft.
  unfold mbind at 1, M_bind at 1, bind at 1, get. cbn [fst snd].
  unfold mbind at 1, M_bind at 1, bind at 1.
  rewrite RepliesInboxSpec.update_entry_run by done.
  unfold try_catch, mbind, M_bind, bind, api. cbn [fst snd].
  rewrite Hgen. rewrite RepliesInboxSpec.showMessage_run by done.
  rewrite RepliesInboxSpec.update_entry_run by done.
  cbn [replyStates replies loading expandedReply message].
  unfold spread. rewrite lookup_insert_eq, insert_insert_eq. simpl.
  by destruct (replyStates c !! replyId) as [[]|].
Qed.

(** The uploads of the page are the uploads the server sees, and they leave
    the component alone. *)
Lemma upload_all_uploads (files : list Api.file) (c : component) (s : S) :
  upload_all fetch files (c, s)
  = ((uploads fetch files s).1, (c, (uploads fetch files s).2)).
Proof.
  revert s. induction files as [|file files IH]; intros s; [done|].
  cbn [upload_all uploads]. unfold mbind, M_bind, bind, api. cbn [fst snd].
  destruct (Api.uploadAttachment fetch file s) as [[fileData|e] s1]; [|done].
  rewrite IH. by destruct (uploads fetch files s1) as [[uploaded|e] s2].
Qed.

Lemma uploads_length (files : list Api.file) (s s' : S) (uploaded : list Attachment.t) :
  uploads fetch files s = (Returned uploaded, s') → length uploaded = length files.
Proof.
  revert s s' uploaded. induction files as [|file files IH]; intros s s' uploaded.
  - by intros [= <- _].
  - cbn [uploads]. unfold mbind, M_bind, bind.
    destruct (Api.uploadAttachment fetch file s) as [[fileData|e] s1]; [|done].
    destruct (uploads fetch files s1) as [[rest|e] s2] eqn:Hrest; [|done].
    unfold mret, M_ret, ret. intros [= <- _]. simpl. f_equal. by eapply IH.
Qed.

Lemma handleFileSelect_run (files : list Api.file) (c : component) (s : S) :
  crashed c = None →
  handleFileSelect fetch replyId files (c, s)
  = (Returned (),
     (match (uploads fetch files s).1 with
      | Returned uploaded =>
          Component (replies c) (loading c) (expandedReply c)
            (Some ("success", pretty (length files) +:+ " file(s) uploaded"))
            (<[replyId := with_uploadingFile false
                            (with_attachments
                               (default [] (attachments (spread (replyStates c) replyId))
                                ++ uploaded)
                               (spread (replyStates c) replyId))]>
               (replyStates c))
            None
      | Thrown e =>
          Component (replies c) (loading c) (expandedReply c)
            (Some ("error", Js.message e))
            (<[replyId := with_uploadingFile false (spread (replyStates c) replyId)]>
               (replyStates c))
            None
      end,
      (uploads fetch files s).2)).
Proof.
  intros Hc. unfold handleFileSelect.
  unfold mbind at 1, M_bind at 1, bind at 1.
  rewrite RepliesInboxSpec.update_entry_run by done.
  unfold try_catch. unfold mbind at 1, M_bind at 1, bind at 1.
  rewrite upload_all_uploads.
  destruct (uploads fetch files s) as [[uploaded|e] s1]; cbn [fst snd].
  - unfold mbind, M_bind, bind. rewrite RepliesInboxSpec.setReplyStates_run by done.
    cbn [replyStates replies loading expandedReply message].
    rewrite lookup_insert_eq.
    unfold showMessage, setMessage, set_component, modify. cbn [fst snd crashed].
    rewrite insert_insert_eq.
    destruct (spread (replyStates c) replyId); reflexivity.
  - unfold mbind, M_bind, bind. rewrite RepliesInboxSpec.showMessage_run by done.
    rewrite RepliesInboxSpec.update_entry_run by done.
    cbn [replyStates replies loading expandedReply message].
    unfold spread. rewrite lookup_insert_eq, insert_insert_eq. simpl.
    by destruct (replyStates c !! replyId) as [[]|].
Qed.

Lemma handleRemoveAttachment_run (index : nat) (c : component) (s : S) :
  crashed c = None →
  handleRemoveAttachment replyId index (c, s)
  = (Returned (),
     (match replyStates c !! replyId ≫= attachments with
      | Some files =>
          Component (replies c) (loading c) (expandedReply c) (message c)
            (<[replyId := with_attachments (filter_index index files)
                            (spread (replyStates c) replyId)]> (replyStates c))
            None
      | None =>
          Component (replies c) (loading c) (expandedReply c) (message c)
            (replyStates c) (Some (TypeError undefined_read_message))
      end, s)).
Proof.
  intros Hc. unfold handleRemoveAttachment. rewrite RepliesInboxSpec.setReplyStates_run by done.
  by destruct (replyStates c !! replyId ≫= attachments).
Qed.

End Runs.

(** ** Loading the inbox *)

(** X15: [loadReplies] either replaces the replies by the ones the server
    returns and rebuilds the entries of [replyStates] from them, leaving the
    banner as it was, or, when the request fails, keeps the replies and the
    entries and shows the message of the error; in both cases the page stops
    loading and exactly one request is made. *)
Theorem loadReplies_outcome {S : Type}
    (fetch : ∀ A, Api.request A → M S (Api.response A)) (c : component) (s : S) :
  crashed c = None →
  loadReplies fetch (c, s)
  = (Returned (),
     (match (Api.getInboundReplies fetch s).1 with
      | Returned data =>
          Component data false (expandedReply c) (message c) (fresh_states data) None
      | Thrown e =>
          Component (replies c) false (expandedReply c) (Some ("error", Js.message e))
            (replyStates c) None
      end,
      (Api.getInboundReplies fetch s).2)).
Proof. apply RepliesInboxSpec.loadReplies_run. Qed.

Lemma loadReplies_outcome_witness :
  crashed RepliesInbox.initial = None
  ∧ loadReplies (canned [stored 1 "Re: Hi" "Thanks"]) (RepliesInbox.initial, ())
    = (Returned (),
       (Component [stored 1 "Re: Hi" "Thanks"] false None None
          (fresh_states [stored 1 "Re: Hi" "Thanks"]) None, ())).
Proof.
  split; [reflexivity|].
  exact (loadReplies_outcome (canned [stored 1 "Re: Hi" "Thanks"])
           RepliesInbox.initial () eq_refl).
Defined.

(** X16: after a load there is an entry in [replyStates] for an id exactly
    when a reply of the list has that id, and the entry is the one built from
    the last such reply: its flags are false, its tone is the stored draft
    tone or FRIENDLY, its subject and body are the stored draft or empty, and
    its attachments are the stored ones or none. *)
Theorem fresh_states_lookup (data : list Reply.t) (i : Z) :
  fresh_states data !! i = fresh_state <$> last_such (λ r, Reply.id r =? i) data
  ∧ (is_Some (fresh_states data !! i) ↔ ∃ r, r ∈ data ∧ Reply.id r = i)
  ∧ (∀ st, fresh_states data !! i = Some st →
       ∃ r, r ∈ data ∧ Reply.id r = i
            ∧ st = ReplyState (Some false) (Some false) (Some false)
                     (Some (match Reply.draft_tone r with
                            | Some t => str_or t "FRIENDLY"
                            | None => "FRIENDLY"
                            end))
                     (Some (default "" (Reply.draft_subject r)))
                     (Some (default "" (Reply.draft_body r)))
                     (Some (default [] (Reply.attachments r)))
                     (Some false)).
Proof.
  assert (Hlookup : fresh_states data !! i
                    = fresh_state <$> last_such (λ r, Reply.id r =? i) data)
    by apply (MapFacts.foldl_insert_lookup Reply.id fresh_state).
  split; [done|]. rewrite Hlookup. split; [split|].
  - intros [st Hst]. destruct (last_such _ data) as [r|] eqn:Hr; [|done].
    apply MapFacts.last_such_Some in Hr as [Hin Heq].
    exists r. split; [done | by apply Z.eqb_eq].
  - intros (r & Hin & Heq).
    destruct (MapFacts.last_such_is_Some (λ r, Reply.id r =? i) data r Hin) as [r' ->];
      [by apply Z.eqb_eq | by eexists].
  - intros st Hst. destruct (last_such _ data) as [r|] eqn:Hr; [|done].
    apply MapFacts.last_such_Some in Hr as [Hin Heq]. simplify_eq/=.
    exists r. split; [done|]. split; [by apply Z.eqb_eq | done].
Qed.

(** ** The handlers *)
Section Handlers.
Context {S : Type} (fetch : ∀ A, Api.request A → M S (Api.response A)).
Context (replyId : Z).



(** X18: when the request of [handleGenerateDraft] fails, the text in the
    editor is kept: the banner shows the message of the error and, in the
    entry of the reply, only [generatingDraft] is written (to false), so the
    draft subject, the draft body, the tone and the attachments are the ones
    from before, edited or not. *)
Theorem handleGenerateDraft_failure (force : bool) (c : component) (s s1 : S)
    (state : reply_state) (e : exn) :
  crashed c = None →
  replyStates c !! replyId = Some state →
  Api.generateDraft fetch replyId (chosen_tone (Some state)) force s = (Thrown e, s1) →
  handleGenerateDraft fetch replyId force (c, s)
  = (Returned (),
     (Component (replies c) (loading c) (expandedReply c)
        (Some ("error", Js.message e))
        (<[replyId := with_generatingDraft false state]> (replyStates c))
        None, s1))
  ∧ draftSubject (with_generatingDraft false state) = draftSubject state
  ∧ draftBody (with_generatingDraft false state) = draftBody state
  ∧ selectedTone (with_generatingDraft false state) = selectedTone state
  ∧ attachments (with_generatingDraft false state) = attachments state.
Proof.
  intros Hc Hst Hgen. split; [|done].
  rewrite (handleGenerateDraft_failed_run fetch replyId force c s s1 e Hc).
  - unfold spread. by rewrite Hst.
  - by rewrite Hst.
Qed.

(** X19: [handleFileSelect] uploads the files one by one and is all or
    nothing for the page: when every upload succeeds, the attachments of the
    entry are the former ones followed by the uploaded ones, in the order of
    the files and as many as the files; when an upload fails, the attachments
    are exactly the former ones, although the files before the failing one
    were stored by the server. In both cases [uploadingFile] ends false and
    the banner tells the outcome. *)
Theorem handleFileSelect_outcome (files : list Api.file) (c : component) (s : S)
    (state : reply_state) :
  crashed c = None →
  replyStates c !! replyId = Some state →
  handleFileSelect fetch replyId files (c, s)
  = (Returned (),
     (match (uploads fetch files s).1 with
      | Returned uploaded =>
          Component (replies c) (loading c) (expandedReply c)
            (Some ("success", pretty (length files) +:+ " file(s) uploaded"))
            (<[replyId := with_uploadingFile false
                            (with_attachments
                               (default [] (attachments state) ++ uploaded) state)]>
               (replyStates c))
            None
      | Thrown e =>
          Component (replies c) (loading c) (expandedReply c)
            (Some ("error", Js.message e))
            (<[replyId := with_uploadingFile false state]> (replyStates c))
            None
      end,
      (uploads fetch files s).2))
  ∧ (∀ uploaded, (uploads fetch files s).1 = Returned uploaded →
       length uploaded = length files).
Proof.
  intros Hc Hst. split.
  - rewrite handleFileSelect_run by done. unfold spread. by rewrite Hst.
  - intros uploaded Hup.
    destruct (uploads fetch files s) as [r s1] eqn:Hrun. simpl in Hup. subst r.
    by eapply uploads_length.
Qed.

Lemma filter_index_delete {A} (index : nat) (l : list A) :
  filter_index index l = delete index l.
Proof.
  revert index. induction l as [|x l IH]; intros [|index]; simpl; try done.
  by rewrite IH.
Qed.

(** X20: [handleRemoveAttachment] removes the attachment at the given
    position and nothing else: the attachments before it keep their
    positions, the ones after it move up by one, and the list is one shorter;
    a position beyond the end removes nothing. When the reply has no entry,
    or its entry has no attachments, the updater throws: the state is left as
    it was and the component is torn down. *)
Theorem handleRemoveAttachment_outcome (index : nat) (c : component) (s : S) :
  crashed c = None →
  (∀ state files,
     replyStates c !! replyId = Some state → attachments state = Some files →
     handleRemoveAttachment replyId index (c, s)
     = (Returned (),
        (Component (replies c) (loading c) (expandedReply c) (message c)
           (<[replyId := with_attachments (filter_index index files) state]>
              (replyStates c))
           None, s))
     ∧ (∀ j, (j < index)%nat → filter_index index files !! j = files !! j)
     ∧ (∀ j, (index ≤ j)%nat → filter_index index files !! j = files !! (j + 1)%nat)
     ∧ ((index < length files)%nat →
        length (filter_index index files) = (length files - 1)%nat)
     ∧ ((length files ≤ index)%nat → filter_index index files = files))
  ∧ (replyStates c !! replyId ≫= attachments = None →
     handleRemoveAttachment replyId index (c, s)
     = (Returned (),
        (Component (replies c) (loading c) (expandedReply c) (message c)
           (replyStates c) (Some (TypeError undefined_read_message)), s))).
Proof.
  intros Hc. split.
  - intros state files Hst Hfiles. split; [|rewrite filter_index_delete; repeat split].
    + rewrite handleRemoveAttachment_run by done.
      unfold spread. rewrite Hst. simpl. by rewrite Hfiles.
    + intros j Hj. by apply list_lookup_delete_lt.
    + intros j Hj. rewrite Nat.add_1_r. by apply list_lookup_delete_ge.
    + intros Hlt. rewrite length_delete; [lia|]. by apply lookup_lt_is_Some.
    + intros Hge. clear Hfiles. revert index Hge.
      induction files as [|x files IH]; intros [|index] Hge; simpl in *; try done; [lia|].
      f_equal. apply IH. lia.
  - intros Hnone. rewrite handleRemoveAttachment_run by done. by rewrite Hnone.
Qed.

Lemma filter_index_last {A} (l : list A) (x : A) :
  filter_index (length l) (l ++ [x]) = l.
Proof. induction l as [|y l IH]; simpl; [done | by rewrite IH]. Qed.

(** X21: adding a file and removing it again restores the attachments: after
    [handleFileSelect] with one file whose upload succeeds,
    [handleRemoveAttachment] at the position of the new attachment leaves the
    entry with the attachments from before, and every other field of the
    entry but [uploadingFile] (now false) as before. *)
Theorem upload_then_remove (file : Api.file) (c : component) (s s1 : S)
    (state : reply_state) (old : list Attachment.t) (added : Attachment.t) :
  crashed c = None →
  replyStates c !! replyId = Some state →
  attachments state = Some old →
  Api.uploadAttachment fetch file s = (Returned added, s1) →
  replyStates
    (handleRemoveAttachment replyId (length old)
       (handleFileSelect fetch replyId [file] (c, s)).2).2.1 !! replyId
  = Some (with_uploadingFile false state).
Proof.
  intros Hc Hst Hold Hup.
  assert (Hup1 : uploads fetch [file] s = (Returned [added], s1)).
  { cbn [uploads]. unfold mbind, M_bind, bind. by rewrite Hup. }
  rewrite handleFileSelect_run, Hup1 by done. cbn [fst snd].
  rewrite handleRemoveAttachment_run by done.
  unfold spread. cbn [replyStates]. rewrite Hst, lookup_insert_eq.
  cbn [default mbind option_bind option_ret attachments with_uploadingFile with_attachments].
  unfold id. rewrite Hold. cbn [default replyStates fst snd].
  rewrite lookup_insert_eq, filter_index_last.
  destruct state. simpl in *. by rewrite Hold.
Qed.

(** X22: after a send that the server accepts, [handleSendDraft] reloads the
    inbox. When the reload succeeds, the replies are the ones returned, every
    entry is rebuilt from them (so text edited in the page is replaced by the
    stored drafts), the entry of the sent reply gets [sending] false (and is
    created with that field alone when the reply is no longer listed), and
    the banner says "Reply sent successfully!". When the reload fails, the
    replies and the entries stay, with [sending] false, and the banner shows
    the error of the reload in place of the success message. *)
Theorem handleSendDraft_sent (c : component) (s s1 : S) (state : reply_state)
    (sent : Api.sent) :
  crashed c = None →
  replyStates c !! replyId = Some state →
  falsy (draftSubject state) || falsy (draftBody state) = false →
  Api.sendDraftReply fetch replyId (send_data state) s = (Returned sent, s1) →
  handleSendDraft fetch replyId (c, s)
  = (Returned (),
     (match (Api.getInboundReplies fetch s1).1 with
      | Returned data =>
          Component data false (expandedReply c)
            (Some ("success", "Reply sent successfully!"))
            (<[replyId := with_sending false (spread (fresh_states data) replyId)]>
               (fresh_states data))
            None
      | Thrown e =>
          Component (replies c) false (expandedReply c) (Some ("error", Js.message e))
            (<[replyId := with_sending false state]> (replyStates c)) None
      end,
      (Api.getInboundReplies fetch s1).2)).
Proof. apply RepliesInboxSpec.handleSendDraft_sent_run. Qed.

Lemma fresh_entry_idle (data : list Reply.t) :
  idle (with_sending false (spread (fresh_states data) replyId)).
Proof.
  unfold spread, fresh_states.
  rewrite (MapFacts.foldl_insert_lookup Reply.id fresh_state).
  by destruct (last_such _ data).
Qed.

(** X23: no handler leaves a control of the reply busy. When the reply has an
    entry none of whose flags [generatingAction], [generatingDraft],
    [uploadingFile] and [sending] is true, then after any of the five
    handlers, whatever the server answers, the reply still has an entry and
    none of its four flags is true. The only way a handler tears the
    component down is [handleRemoveAttachment] on an entry without
    attachments. *)
Theorem handlers_end_idle (a : action) (c : component) (s : S) (state : reply_state) :
  crashed c = None →
  replyStates c !! replyId = Some state →
  idle state →
  (∃ state', replyStates (handle fetch replyId a (c, s)).2.1 !! replyId = Some state'
             ∧ idle state')
  ∧ (crashed (handle fetch replyId a (c, s)).2.1 ≠ None →
     ∃ index, a = RemoveAttachment index ∧ attachments state = None).
Proof.
  intros Hc Hst (Ha & Hd & Hu & Hs).
  assert (Hspread : spread (replyStates c) replyId = state)
    by (unfold spread; by rewrite Hst).
  destruct a as [force|force|files|index|]; cbn [handle].
  - rewrite handleGenerateNextAction_run, Hspread by done. cbn [fst snd replyStates crashed].
    split; [|done]. rewrite lookup_insert_eq. eexists. split; [done|].
    by destruct state.
  - destruct (Api.generateDraft fetch replyId (chosen_tone (replyStates c !! replyId))
                force s) as [[draft|e] s1] eqn:Hgen.
    + rewrite (RepliesInboxSpec.handleGenerateDraft_done_run fetch replyId force c s s1 draft)
        by done.
      rewrite Hspread. cbn [fst snd replyStates crashed].
      split; [|done]. rewrite lookup_insert_eq. eexists. split; [done|].
      by destruct state.
    + rewrite (handleGenerateDraft_failed_run fetch replyId force c s s1 e) by done.
      rewrite Hspread. cbn [fst snd replyStates crashed].
      split; [|done]. rewrite lookup_insert_eq. eexists. split; [done|].
      by destruct state.
  - rewrite handleFileSelect_run, Hspread by done. cbn [fst snd].
    destruct (uploads fetch files s).1 as [uploaded|e]; cbn [replyStates crashed];
      (split; [|done]); rewrite lookup_insert_eq; (eexists; split; [done|]);
      by destruct state.
  - rewrite handleRemoveAttachment_run, Hst, Hspread by done. cbn [mbind option_bind].
    destruct (attachments state) as [files|] eqn:Hfiles; cbn [fst snd replyStates crashed].
    + split; [|done]. rewrite lookup_insert_eq. eexists. split; [done|].
      by destruct state.
    + split; [by exists state | intros _; by exists index].
  - destruct (falsy (draftSubject state) || falsy (draftBody state)) eqn:Hf.
    + rewrite (RepliesInboxSpec.handleSendDraft_refused_run fetch replyId c s state) by done.
      cbn [fst snd replyStates crashed]. split; [by exists state | done].
    + destruct (Api.sendDraftReply fetch replyId (send_data state) s)
        as [[sent|e] s1] eqn:Hsend.
      * rewrite (RepliesInboxSpec.handleSendDraft_sent_run fetch replyId c s s1 state sent) by done.
        cbn [fst snd].
        destruct (Api.getInboundReplies fetch s1).1 as [data|e]; cbn [replyStates crashed];
          (split; [|done]); rewrite lookup_insert_eq; (eexists; split; [done|]).
        -- apply fresh_entry_idle.
        -- by destruct state.
      * rewrite (RepliesInboxSpec.handleSendDraft_failed_run fetch replyId c s s1 state e)
          by done.
        cbn [fst snd replyStates crashed].
        split; [|done]. rewrite lookup_insert_eq. eexists. split; [done|].
        by destruct state.
Qed.

End Handlers.


Lemma handleGenerateDraft_failure_witness :
  Api.generateDraft (canned []) 3 "FRIENDLY" false () = (Thrown (Error "Unavailable"), ())
  ∧ handleGenerateDraft (canned []) 3 false (editor "My subject" "My text", ())
    = (Returned (),
       (Component [] false (Some 3) (Some ("error", "Unavailable"))
          (<[3 := with_generatingDraft false (editing "My subject" "My text")]>
             {[ 3 := editing "My subject" "My text" ]}) None, ())).
Proof.
  split; [reflexivity|].
  exact (proj1 (handleGenerateDraft_failure (canned []) 3 false
                  (editor "My subject" "My text") () ()
                  (editing "My subject" "My text") (Error "Unavailable")
                  eq_refl eq_refl eq_refl)).
Defined.

Lemma handleFileSelect_outcome_witness :
  replyStates (editor "Re: Hi" "Thanks") !! 3 = Some (editing "Re: Hi" "Thanks")
  ∧ handleFileSelect uploads_only 3
      [Api.File "offer.pdf" "%PDF"; Api.File "terms.pdf" "%PDF"]
      (editor "Re: Hi" "Thanks", ())
    = (Returned (),
       (Component [] false (Some 3) (Some ("success", "2 file(s) uploaded"))
          (<[3 := with_uploadingFile false
                    (with_attachments
                       [Attachment.Make "offer.pdf" "bucket/1";
                        Attachment.Make "terms.pdf" "bucket/1"]
                       (editing "Re: Hi" "Thanks"))]>
             {[ 3 := editing "Re: Hi" "Thanks" ]}) None, ())).
Proof.
  split; [reflexivity|].
  exact (proj1 (handleFileSelect_outcome uploads_only 3
                  [Api.File "offer.pdf" "%PDF"; Api.File "terms.pdf" "%PDF"]
                  (editor "Re: Hi" "Thanks") () (editing "Re: Hi" "Thanks")
                  eq_refl eq_refl)).
Defined.

Lemma handleRemoveAttachment_outcome_witness :
  handleRemoveAttachment (S:=unit) 3 0
    (Component [] false (Some 3) None
       {[ 3 := with_attachments
                 [Attachment.Make "offer.pdf" "bucket/1";
                  Attachment.Make "terms.pdf" "bucket/2"]
                 (editing "Re: Hi" "Thanks") ]} None, ())
  = (Returned (),
     (Component [] false (Some 3) None
        {[ 3 := with_attachments [Attachment.Make "terms.pdf" "bucket/2"]
                  (editing "Re: Hi" "Thanks") ]} None, ())).
Proof.
  exact (proj1 (proj1 (handleRemoveAttachment_outcome (S:=unit) 3 0
                         (Component [] false (Some 3) None
                            {[ 3 := with_attachments
                                      [Attachment.Make "offer.pdf" "bucket/1";
                                       Attachment.Make "terms.pdf" "bucket/2"]
                                      (editing "Re: Hi" "Thanks") ]} None)
                         () eq_refl)
                  (with_attachments
                     [Attachment.Make "offer.pdf" "bucket/1";
                      Attachment.Make "terms.pdf" "bucket/2"]
                     (editing "Re: Hi" "Thanks"))
                  [Attachment.Make "offer.pdf" "bucket/1";
                   Attachment.Make "terms.pdf" "bucket/2"]
                  eq_refl eq_refl)).
Defined.

Lemma upload_then_remove_witness :
  Api.uploadAttachment uploads_only (Api.File "offer.pdf" "%PDF") ()
  = (Returned (Attachment.Make "offer.pdf" "bucket/1"), ())
  ∧ replyStates
      (handleRemoveAttachment 3 0
         (handleFileSelect uploads_only 3 [Api.File "offer.pdf" "%PDF"]
            (editor "Re: Hi" "Thanks", ())).2).2.1 !! 3
    = Some (with_uploadingFile false (editing "Re: Hi" "Thanks")).
Proof.
  split; [reflexivity|].
  exact (upload_then_remove uploads_only 3 (Api.File "offer.pdf" "%PDF")
           (editor "Re: Hi" "Thanks") () () (editing "Re: Hi" "Thanks") []
           (Attachment.Make "offer.pdf" "bucket/1") eq_refl eq_refl eq_refl eq_refl).
Defined.

Lemma handleSendDraft_sent_witness :
  Api.sendDraftReply (canned [stored 3 "Re: Hi" "Thanks"]) 3
    (send_data (editing "My subject" "My text")) ()
  = (Returned (Api.Sent "Reply sent" None), ())
  ∧ handleSendDraft (canned [stored 3 "Re: Hi" "Thanks"]) 3
      (editor "My subject" "My text", ())
    = (Returned (),
       (Component [stored 3 "Re: Hi" "Thanks"] false (Some 3)
          (Some ("success", "Reply sent successfully!"))
          {[ 3 := editing "Re: Hi" "Thanks" ]} None, ())).
Proof.
  split; [reflexivity|].
  exact (handleSendDraft_sent (canned [stored 3 "Re: Hi" "Thanks"]) 3
           (editor "My subject" "My text") () () (editing "My subject" "My text")
           (Api.Sent "Reply sent" None) eq_refl eq_refl eq_refl eq_refl).
Defined.

Lemma handlers_end_idle_witness :
  idle (editing "My subject" "My text")
  ∧ ∃ state',
      replyStates
        (handle (canned []) 3 SendDraft (editor "My subject" "My text", ())).2.1 !! 3
      = Some state'
      ∧ idle state'.
Proof.
  assert (Hidle : idle (editing "My subject" "My text"))
    by (repeat split; discriminate).
  split; [exact Hidle|].
  exact (proj1 (handlers_end_idle (canned []) 3 SendDraft
                  (editor "My subject" "My text") () (editing "My subject" "My text")
                  eq_refl eq_refl Hidle)).
Defined.

End RepliesInboxFacts.
